(** * The valid-signature cache of [src/zmq/script/sigcache.cpp]

    A shallow embedding of [CSignatureCache] (fingerprint derivation, the
    bounded set of fingerprints with random-bucket eviction) and of
    [CachingTransactionSignatureChecker::VerifySignature], followed by the
    properties of the design document that concern them.

    Conventions.
    - Machine integers are [Z]; [size_t] is the 64-bit unsigned type of an
      LP64 platform and its wrap-around is written out ([to_size_t]).
    - A [uint256] is the number whose 32 little-endian bytes are the blob.
    - [std::vector<unsigned char>] and the serialised bytes of a [CPubKey]
      are [list byte].
    - The collaborators declared in headers that are not part of the unit
      (the digest, the base verifier, the memory estimator, the random
      source, the argument map, Boost's bucket policy) are variables of the
      section [SigCache]. *)

From Stdlib Require Import ZArith Lia.
From Stdlib.Strings Require Import Byte.
From stdpp Require Import base numbers list gmap fin_sets.

Local Open Scope Z_scope.

(** ** Machine data *)

Definition uint256 := Z.

Definition is_uint256 (v : Z) : Prop := 0 ≤ v < 2 ^ 256.

(** The value held by a 32-byte blob into which [v] was stored. *)
Definition to_uint256 (v : Z) : uint256 := v `mod` 2 ^ 256.

(** Conversion to [size_t] (unsigned, 64 bits). *)
Definition to_size_t (v : Z) : Z := v `mod` 2 ^ 64.

Definition byte_of_Z (z : Z) : byte :=
  default "000"%byte (Byte.of_N (Z.to_N (z `mod` 256))).

Definition Z_of_byte (b : byte) : Z := Z.of_N (Byte.to_N b).

#[global] Instance byte_eq_decision : EqDecision byte := Byte.byte_eq_dec.

(** [n] bytes of [v], least significant first. *)
Fixpoint le_bytes (n : nat) (v : Z) : list byte :=
  match n with
  | O => []
  | S k => byte_of_Z v :: le_bytes k (v `div` 256)
  end.

(** [x.begin()] read over 32 bytes. *)
Definition uint256_bytes (v : uint256) : list byte := le_bytes 32 v.

(** [uint256::GetCheapHash]: the first eight bytes of the blob, as a
    64-bit number. *)
Definition GetCheapHash (key : uint256) : Z := key `mod` 2 ^ 64.

(** [CSignatureCacheHasher::operator()]. *)
Definition CSignatureCacheHasher (key : uint256) : Z := GetCheapHash key.

(** ** The container [map_type]

    [boost::unordered_set<uint256, CSignatureCacheHasher>] seen through the
    members the unit calls: a finite set of keys and a bucket count, the
    bucket of a key being its hash reduced by the bucket count. *)

Record map_type := { elems : gset Z; bucket_count : Z }.

Definition mt_size (m : map_type) : Z := Z.of_nat (size (elems m)).

Definition mt_bucket (m : map_type) (key : uint256) : Z :=
  CSignatureCacheHasher key `mod` bucket_count m.

(** [m.count(key)] *)
Definition mt_count (key : uint256) (m : map_type) : Z :=
  if decide (key ∈ elems m) then 1 else 0.

(** [m.erase(key)]; the bucket array is kept. *)
Definition mt_erase (key : uint256) (m : map_type) : map_type :=
  {| elems := elems m ∖ {[key]}; bucket_count := bucket_count m |}.

(** [m.begin(s)]: the first key met in bucket [s], [None] for [m.end(s)]. *)
Definition mt_begin (s : Z) (m : map_type) : option uint256 :=
  head (filter (λ key, mt_bucket m key = s) (elements (elems m))).

(** The store with the same bucket array and no key. *)
Definition mt_clear (m : map_type) : map_type :=
  {| elems := ∅; bucket_count := bucket_count m |}.

Record CSignatureCache := { nonce : uint256; setValid : map_type }.

(** The arguments of one call of the base verifier. *)
Definition verify_args : Type := list byte * list byte * uint256.

(** The process: the two cache objects of the unit, the number of values
    taken from the random source and the calls made to the base verifier.
    The function-local static of [VerifySignature] is [None] until control
    first passes through its declaration. *)
Record Process := {
  signatureCache : CSignatureCache;
  VerifySignature_signatureCache : option CSignatureCache;
  rand_pos : nat;
  base_calls : list verify_args
}.

(** What a bounded run of [VerifySignature] has produced: the value
    returned, or nothing yet because [Set] is still in its eviction loop
    (the process is then shown as it was when [Set] was entered, with the
    call of the base verifier recorded). *)
Inductive outcome := Returned (b : bool) | Evicting.

Section SigCache.

(** [CSHA256] through [Finalize], as the number stored in the blob. *)
Variable sha256 : list byte → Z.
(** [TransactionSignatureChecker::VerifySignature (vchSig, pubkey, sighash)]. *)
Variable baseVerify : list byte → list byte → uint256 → bool.
(** [memusage::DynamicUsage] on the container. *)
Variable DynamicUsage : map_type → Z.
(** The [k]-th value delivered by the random source of [random.h]. *)
Variable rand : nat → Z.
(** [GetArg("-maxsigcachesize", DEFAULT_MAX_SIG_CACHE_SIZE)], an [int64_t]. *)
Variable maxsigcachesize : Z.
(** Boost's bucket policy: the bucket count of a default-constructed set,
    and the bucket count after an insertion that brings the set to [n]
    keys in a table of [b] buckets. *)
Variable default_buckets : Z.
Variable rehash_policy : Z → Z → Z.

(** [m.insert(key)] *)
Definition mt_insert (key : uint256) (m : map_type) : map_type :=
  if decide (key ∈ elems m) then m
  else {| elems := {[key]} ∪ elems m;
          bucket_count := rehash_policy (mt_size m + 1) (bucket_count m) |}.

Definition mt_new : map_type := {| elems := ∅; bucket_count := default_buckets |}.

(** *** Random source *)

(** [GetRandBytes(buf, 32)] into a [uint256]. *)
Definition GetRandBytes32 (pos : nat) : uint256 * nat :=
  (to_uint256 (rand pos), S pos).

(** [GetRand(nMax)]: a value below [nMax]; [0], and nothing taken from
    the source, when [nMax] is [0]. *)
Definition GetRand (nMax : Z) (pos : nat) : Z * nat :=
  if nMax =? 0 then (0, pos) else (rand pos `mod` nMax, S pos).

(** *** CSHA256 *)

Definition CSHA256 := list byte.
Definition CSHA256_init : CSHA256 := [].
Definition CSHA256_Write (h : CSHA256) (data : list byte) : CSHA256 := h ++ data.
Definition CSHA256_Finalize (h : CSHA256) : uint256 := to_uint256 (sha256 h).

(** *** CSignatureCache *)

(** The constructor: a fresh nonce and a default-constructed set. *)
Definition CSignatureCache_new (pos : nat) : CSignatureCache * nat :=
  let '(n, pos') := GetRandBytes32 pos in
  ({| nonce := n; setValid := mt_new |}, pos').

Definition CSignatureCache_ComputeEntry (c : CSignatureCache)
    (hash : uint256) (vchSig pubkey : list byte) : uint256 :=
  CSHA256_Finalize
    (CSHA256_Write
       (CSHA256_Write
          (CSHA256_Write
             (CSHA256_Write CSHA256_init (uint256_bytes (nonce c)))
             (uint256_bytes hash))
          pubkey)
       vchSig).

Definition CSignatureCache_Get (entry : uint256) (c : CSignatureCache)
    : bool * CSignatureCache :=
  (negb (mt_count entry (setValid c) =? 0), c).

Definition CSignatureCache_Erase (entry : uint256) (c : CSignatureCache)
    : CSignatureCache :=
  {| nonce := nonce c; setValid := mt_erase entry (setValid c) |}.

(** [GetArg("-maxsigcachesize", ...) * ((size_t) 1 << 20)], the product
    being taken in [size_t]. *)
Definition nMaxCacheSize : Z := to_size_t (maxsigcachesize * Z.shiftl 1 20).

(** The [while] loop of [Set], at most [fuel] rounds of it. *)
Fixpoint Set_evict (fuel : nat) (m : map_type) (pos : nat)
    : option (map_type * nat) :=
  if DynamicUsage m >? nMaxCacheSize then
    match fuel with
    | O => None
    | S fuel' =>
        let '(s, pos') := GetRand (bucket_count m) pos in
        match mt_begin s m with
        | Some key => Set_evict fuel' (mt_erase key m) pos'
        | None => Set_evict fuel' m pos'
        end
    end
  else Some (m, pos).

(** [Set]; [None] when the loop has not exited within [fuel] rounds. *)
Definition CSignatureCache_Set (fuel : nat) (entry : uint256)
    (c : CSignatureCache) (pos : nat) : option (CSignatureCache * nat) :=
  if nMaxCacheSize <=? 0 then Some (c, pos)
  else
    match Set_evict fuel (setValid c) pos with
    | Some (m, pos') =>
        Some ({| nonce := nonce c; setValid := mt_insert entry m |}, pos')
    | None => None
    end.

(** *** CachingTransactionSignatureChecker::VerifySignature *)

(** The local static as the body of the call sees it. *)
Definition enter_static (p : Process) : CSignatureCache * nat :=
  match VerifySignature_signatureCache p with
  | Some c => (c, rand_pos p)
  | None => CSignatureCache_new (rand_pos p)
  end.

(** The process once the call is over: the static holds [c], [pos]
    values were taken from the random source, [calls] were made. *)
Definition leave (p : Process) (c : CSignatureCache) (pos : nat)
    (calls : list verify_args) : Process :=
  {| signatureCache := signatureCache p;
     VerifySignature_signatureCache := Some c;
     rand_pos := pos;
     base_calls := calls |}.

Definition VerifySignature (fuel : nat) (store : bool)
    (vchSig pubkey : list byte) (sighash : uint256) (p : Process)
    : outcome * Process :=
  let '(c, pos) := enter_static p in
  let entry := CSignatureCache_ComputeEntry c sighash vchSig pubkey in
  let '(hit, c) := CSignatureCache_Get entry c in
  if hit then
    let c := if negb store then CSignatureCache_Erase entry c else c in
    (Returned true, leave p c pos (base_calls p))
  else
    let calls := base_calls p ++ [(vchSig, pubkey, sighash)] in
    if negb (baseVerify vchSig pubkey sighash) then
      (Returned false, leave p c pos calls)
    else if store then
      match CSignatureCache_Set fuel entry c pos with
      | Some (c', pos') => (Returned true, leave p c' pos' calls)
      | None => (Evicting, leave p c pos calls)
      end
    else (Returned true, leave p c pos calls).

(** The process after static initialisation of the unit. *)
Definition start (pos : nat) : Process :=
  let '(c, pos') := CSignatureCache_new pos in
  {| signatureCache := c;
     VerifySignature_signatureCache := None;
     rand_pos := pos';
     base_calls := [] |}.

(** *** Derived notions used in the statements *)

(** The fingerprints held by the cache that [VerifySignature] uses. *)
Definition members (p : Process) : gset Z :=
  match VerifySignature_signatureCache p with
  | Some c => elems (setValid c)
  | None => ∅
  end.

(** The fingerprint a call derives in process [p]. *)
Definition fingerprint (p : Process) (vchSig pubkey : list byte)
    (sighash : uint256) : uint256 :=
  CSignatureCache_ComputeEntry (fst (enter_static p)) sighash vchSig pubkey.

(** Every fingerprint held was derived from a triple that the base
    verifier accepts. *)
Definition all_verified (p : Process) : Prop :=
  ∀ e, e ∈ members p →
    ∃ vchSig pubkey sighash,
      baseVerify vchSig pubkey sighash = true
      ∧ e = fingerprint p vchSig pubkey sighash.

(** The bytes a cache with the nonce of [c] feeds to the digest. *)
Definition entry_message (c : CSignatureCache) (hash : uint256)
    (vchSig pubkey : list byte) : list byte :=
  uint256_bytes (nonce c) ++ uint256_bytes hash ++ pubkey ++ vchSig.

(** The process [p] with another namespace-scope cache object. *)
Definition with_signatureCache (o : CSignatureCache) (p : Process) : Process :=
  {| signatureCache := o;
     VerifySignature_signatureCache := VerifySignature_signatureCache p;
     rand_pos := rand_pos p;
     base_calls := base_calls p |}.

(** Every key of [m] has its bucket drawn again after any position
    from [pos] on. *)
Definition fair_draws (m : map_type) (pos : nat) : Prop :=
  ∀ key, key ∈ elems m →
    ∀ p, (pos ≤ p)%nat →
      ∃ q, (p ≤ q)%nat ∧ fst (GetRand (bucket_count m) q) = mt_bucket m key.

(** The condition under which the eviction loop is shown to exit. *)
Definition eviction_exits (m : map_type) (pos : nat) : Prop :=
  fair_draws m pos ∧ DynamicUsage (mt_clear m) ≤ nMaxCacheSize.

(** The states of the process: before the first call, and after any
    call that has returned. *)
Inductive Reachable : Process → Prop :=
| reach_start p :
    VerifySignature_signatureCache p = None → Reachable p
| reach_call p fuel store vchSig pubkey sighash b p' :
    Reachable p →
    VerifySignature fuel store vchSig pubkey sighash p = (Returned b, p') →
    Reachable p'.

(** No triple accepted by the base verifier has the fingerprint of
    [(vchSig, pubkey, sighash)] under nonce [c]. *)
Definition no_valid_collision (c : CSignatureCache)
    (vchSig pubkey : list byte) (sighash : uint256) : Prop :=
  ∀ vchSig' pubkey' sighash',
    baseVerify vchSig' pubkey' sighash' = true →
    CSignatureCache_ComputeEntry c sighash' vchSig' pubkey'
      ≠ CSignatureCache_ComputeEntry c sighash vchSig pubkey.

End SigCache.

(** ** Instances of the collaborators for concrete runs *)

(** The estimator used in the concrete runs, after [memusage::MallocUsage]
    and [memusage::DynamicUsage] of the upstream [memusage.h] for a Boost
    unordered set on a 64-bit platform: one allocation of 40 bytes per key
    (a [uint256] and a pointer) and one array of 8-byte bucket pointers,
    each rounded as the allocator rounds it.  The general statements hold
    for every estimator. *)
Definition MallocUsage (alloc : Z) : Z :=
  if alloc =? 0 then 0 else Z.shiftl (Z.shiftr (alloc + 31) 4) 4.

Definition node_bucket_usage (m : map_type) : Z :=
  MallocUsage 40 * mt_size m + MallocUsage (8 * bucket_count m).

(** A digest standing in for SHA-256: every byte of the message weighs on
    the result. *)
Definition poly_digest (msg : list byte) : Z :=
  fold_left (λ acc b, (acc * 257 + Z_of_byte b + 1) `mod` (2 ^ 255 - 19)) msg 0.

(** The mock verifier of the design document's scenario: only the
    signature bytes [1,2,3] are valid, against key [P] and digest [H]. *)
Definition sig_123 : list byte := ["001"; "002"; "003"]%byte.
Definition sig_999 : list byte := ["009"; "009"; "009"]%byte.
Definition key_P : list byte := byte_of_Z 2 :: le_bytes 32 20151106.
Definition digest_H : uint256 := 1234567890123456789.

Definition mock_verify (vchSig pubkey : list byte) (sighash : uint256) : bool :=
  bool_decide (vchSig = sig_123) && bool_decide (pubkey = key_P)
              && bool_decide (sighash = digest_H).

(** Two random sources: one that delivers [0, 1, 2, ...] and one that
    only ever delivers [0]. *)
Definition counting_rand (k : nat) : Z := Z.of_nat k.
Definition zero_rand (k : nat) : Z := 0.

(** A bucket policy: sixteen buckets at first, a table twice as large
    once there are more keys than buckets. *)
Definition sixteen_buckets : Z := 16.
Definition doubling_policy (n b : Z) : Z :=
  if n <=? b then b else Z.max n (2 * b).

(** A store of the [n] keys [1 .. n] in a table of [b] buckets. *)
Definition store_of (n b : Z) : map_type :=
  {| elems := list_to_set (seqZ 1 n); bucket_count := b |}.

Definition cache_of (n b : Z) : CSignatureCache :=
  {| nonce := 42; setValid := store_of n b |}.

(** The scenario of the design document: the mock verifier, a cache
    configured with [maxsigcachesize], the key [P] and the digest [H]. *)
Definition scenario_start : Process := start counting_rand sixteen_buckets 0.

Abbreviation scenario_verify maxsigcachesize :=
  (VerifySignature poly_digest mock_verify node_bucket_usage counting_rand
     maxsigcachesize sixteen_buckets doubling_policy).

Abbreviation scenario_fingerprint :=
  (fingerprint poly_digest counting_rand sixteen_buckets).

(** The process after the valid triple was verified once and stored, with
    a bound of one mebibyte. *)
Definition scenario_cached : Process :=
  snd (scenario_verify 1 0%nat true sig_123 key_P digest_H scenario_start).

(** [Set] with the estimator and the doubling policy. *)
Abbreviation scenario_Set rand maxsigcachesize :=
  (CSignatureCache_Set node_bucket_usage rand maxsigcachesize doubling_policy).

(** * Properties *)

Section SigCacheFacts.

Variable sha256 : list byte → Z.
Variable baseVerify : list byte → list byte → uint256 → bool.
Variable DynamicUsage : map_type → Z.
Variable rand : nat → Z.
Variable maxsigcachesize : Z.
Variable default_buckets : Z.
Variable rehash_policy : Z → Z → Z.

(** Short names for the operations applied to the collaborators of the
    section: [Verify] is [VerifySignature], [CacheSet] is
    [CSignatureCache_Set], [evict] is [Set_evict], [draw] is [GetRand],
    [store_insert] is [mt_insert], [ComputeEntry] is
    [CSignatureCache_ComputeEntry], [enter] is [enter_static], [fp] is
    [fingerprint], [nMax] is [nMaxCacheSize], [exits] is
    [eviction_exits], [fair] is [fair_draws], [verified] is
    [all_verified] and [reachable] is [Reachable]. *)
Local Abbreviation nMax := (nMaxCacheSize maxsigcachesize).
Local Abbreviation evict := (Set_evict DynamicUsage rand maxsigcachesize).
Local Abbreviation draw := (GetRand rand).
Local Abbreviation store_insert := (mt_insert rehash_policy).
Local Abbreviation ComputeEntry := (CSignatureCache_ComputeEntry sha256).
Local Abbreviation CacheSet :=
  (CSignatureCache_Set DynamicUsage rand maxsigcachesize rehash_policy).
Local Abbreviation enter := (enter_static rand default_buckets).
Local Abbreviation Verify :=
  (VerifySignature sha256 baseVerify DynamicUsage rand maxsigcachesize
     default_buckets rehash_policy).
Local Abbreviation fair := (fair_draws rand).
Local Abbreviation exits := (eviction_exits DynamicUsage rand maxsigcachesize).
Local Abbreviation fp := (fingerprint sha256 rand default_buckets).
Local Abbreviation verified :=
  (all_verified sha256 baseVerify rand default_buckets).
Local Abbreviation reachable :=
  (Reachable sha256 baseVerify DynamicUsage rand maxsigcachesize
     default_buckets rehash_policy).

(** ** Bytes of a blob *)

Lemma Z_of_byte_of_Z z : Z_of_byte (byte_of_Z z) = z `mod` 256.
Proof.
  unfold Z_of_byte, byte_of_Z.
  pose proof (Z.mod_pos_bound z 256 ltac:(lia)) as Hz.
  destruct (Byte.of_N (Z.to_N (z `mod` 256))) as [b|] eqn:E; simpl.
  - apply Byte.to_of_N in E. rewrite E. lia.
  - apply Byte.of_N_None_iff in E. lia.
Qed.

Lemma le_bytes_length n v : length (le_bytes n v) = n.
Proof. revert v. induction n as [|n IH]; intros v; simpl; [done|]. by rewrite IH. Qed.

Lemma le_bytes_inj n v w :
  0 ≤ v < 256 ^ Z.of_nat n → 0 ≤ w < 256 ^ Z.of_nat n →
  le_bytes n v = le_bytes n w → v = w.
Proof.
  revert v w. induction n as [|n IH]; intros v w Hv Hw Heq.
  - change (256 ^ Z.of_nat 0) with 1 in *. lia.
  - rewrite Nat2Z.inj_succ, Z.pow_succ_r in Hv, Hw by lia.
    simpl in Heq. injection Heq as Hb Hrest.
    apply (f_equal Z_of_byte) in Hb. rewrite !Z_of_byte_of_Z in Hb.
    apply IH in Hrest.
    + rewrite (Z.div_mod v 256), (Z.div_mod w 256) by lia. congruence.
    + split; [apply Z.div_pos; lia | apply Z.div_lt_upper_bound; lia].
    + split; [apply Z.div_pos; lia | apply Z.div_lt_upper_bound; lia].
Qed.

Lemma uint256_bytes_inj v w :
  is_uint256 v → is_uint256 w → uint256_bytes v = uint256_bytes w → v = w.
Proof.
  unfold is_uint256, uint256_bytes. intros Hv Hw.
  apply le_bytes_inj; by change (256 ^ Z.of_nat 32) with (2 ^ 256).
Qed.

Lemma to_uint256_range v : is_uint256 (to_uint256 v).
Proof. unfold is_uint256, to_uint256. apply Z.mod_pos_bound. lia. Qed.

(** ** The container *)

Lemma mt_begin_Some s m key :
  mt_begin s m = Some key → key ∈ elems m ∧ mt_bucket m key = s.
Proof.
  unfold mt_begin. intros H. apply head_Some_elem_of in H.
  apply list_elem_of_filter in H as [Hb Hin]. by apply elem_of_elements in Hin.
Qed.

Lemma mt_begin_None s m key :
  mt_begin s m = None → key ∈ elems m → mt_bucket m key ≠ s.
Proof.
  unfold mt_begin. intros H Hin Hb. apply head_None in H.
  assert (key ∈ filter (λ k, mt_bucket m k = s) (elements (elems m))) as Hf.
  { apply list_elem_of_filter. split; [done | by apply elem_of_elements]. }
  rewrite H in Hf. by apply not_elem_of_nil in Hf.
Qed.

Lemma mt_erase_size key m :
  key ∈ elems m → (size (elems (mt_erase key m)) < size (elems m))%nat.
Proof.
  intros Hin. simpl. by apply subset_size, subset_difference_elem_of.
Qed.

Lemma mt_erase_subseteq key m : elems (mt_erase key m) ⊆ elems m.
Proof. intros x Hx. simpl in Hx. by apply elem_of_difference in Hx as [? _]. Qed.

Lemma mt_clear_empty m : elems m = ∅ → mt_clear m = m.
Proof. destruct m as [e b]. simpl. intros ->. done. Qed.

(** ** The eviction loop *)

Lemma Set_evict_unfold fuel m pos :
  evict fuel m pos =
  if DynamicUsage m >? nMax then
    match fuel with
    | O => None
    | S fuel' =>
        match mt_begin (fst (draw (bucket_count m) pos)) m with
        | Some key => evict fuel' (mt_erase key m) (snd (draw (bucket_count m) pos))
        | None => evict fuel' m (snd (draw (bucket_count m) pos))
        end
    end
  else Some (m, pos).
Proof.
  destruct fuel; simpl; [done|].
  by destruct (draw (bucket_count m) pos).
Qed.

Lemma Set_evict_under fuel m pos :
  DynamicUsage m ≤ nMax → evict fuel m pos = Some (m, pos).
Proof.
  intros H. rewrite Set_evict_unfold.
  destruct (Z.gtb_spec (DynamicUsage m) nMax); [lia | done].
Qed.

Lemma draw_pos n pos : (pos ≤ snd (draw n pos))%nat.
Proof. unfold GetRand. destruct (n =? 0); simpl; lia. Qed.

(** More fuel does not change the result of a loop that has exited. *)
Lemma Set_evict_mono fuel fuel' m pos r :
  evict fuel m pos = Some r → (fuel ≤ fuel')%nat → evict fuel' m pos = Some r.
Proof.
  revert fuel' m pos. induction fuel as [|fuel IH]; intros fuel' m pos.
  - rewrite !Set_evict_unfold.
    destruct (DynamicUsage m >? nMax); [done | by destruct fuel'].
  - rewrite (Set_evict_unfold (S fuel)), (Set_evict_unfold fuel').
    destruct (DynamicUsage m >? nMax); [|done].
    destruct fuel' as [|fuel']; [lia|]. intros H Hle.
    destruct (mt_begin _ m); apply IH; (done || lia).
Qed.

(** What holds when the loop exits. *)
Lemma Set_evict_post fuel m pos m' pos' :
  evict fuel m pos = Some (m', pos') →
  DynamicUsage m' ≤ nMax ∧ elems m' ⊆ elems m
    ∧ bucket_count m' = bucket_count m ∧ (pos ≤ pos')%nat.
Proof.
  revert m pos. induction fuel as [|fuel IH]; intros m pos;
    rewrite Set_evict_unfold;
    destruct (Z.gtb_spec (DynamicUsage m) nMax) as [Hgt|Hle]; try done.
  - intros [= <- <-]. repeat split; (done || lia).
  - pose proof (draw_pos (bucket_count m) pos) as Hp.
    destruct (mt_begin _ m) as [key|] eqn:Hb; intros H; apply IH in H.
    + destruct H as (? & Hsub & ? & ?). simpl in *.
      repeat split; [done | | done | lia].
      etrans; [exact Hsub | apply mt_erase_subseteq].
    + destruct H as (? & ? & ? & ?). repeat split; (done || lia).
  - intros [= <- <-]. repeat split; (done || lia).
Qed.

Lemma fair_draws_weaken m m' pos pos' :
  fair m pos → elems m' ⊆ elems m → bucket_count m' = bucket_count m →
  (pos ≤ pos')%nat → fair m' pos'.
Proof.
  intros Hf Hsub Hbc Hle key Hin p Hp.
  destruct (Hf key (Hsub _ Hin) p ltac:(lia)) as (q & Hq & Hd).
  exists q. split; [done|]. unfold mt_bucket in *. by rewrite Hbc.
Qed.

(** With fair draws, and a bound that the bucket array alone respects,
    the loop exits. *)
Lemma Set_evict_exits m pos :
  exits m pos → ∃ fuel r, evict fuel m pos = Some r.
Proof.
  intros [Hfair Hclear].
  remember (size (elems m)) as n eqn:Hn.
  assert (size (elems m) ≤ n)%nat as Hsize by lia. clear Hn.
  revert m pos Hfair Hclear Hsize.
  induction n as [|n IH]; intros m pos Hfair Hclear Hsize.
  { exists O, (m, pos). apply Set_evict_under.
    assert (elems m = ∅) as He.
    { apply leibniz_equiv, size_empty_inv. lia. }
    by rewrite <- (mt_clear_empty m He). }
  destruct (decide (DynamicUsage m ≤ nMax)) as [Hle|Hgt].
  { exists O, (m, pos). by apply Set_evict_under. }
  destruct (decide (elems m = ∅)) as [He|Hne].
  { rewrite (mt_clear_empty m He) in Hclear. done. }
  apply set_choose_L in Hne as [key Hkey].
  destruct (Hfair key Hkey pos ltac:(lia)) as (q & Hq & Hdraw).
  assert (∀ d p, (q = p + d)%nat → (pos ≤ p)%nat →
            ∃ fuel r, evict fuel m p = Some r) as Hinner.
  { induction d as [|d IHd]; intros p Hqp Hp.
    - assert (p = q) as -> by lia.
      destruct (mt_begin (fst (draw (bucket_count m) q)) m) as [k|] eqn:Hb.
      + pose proof Hb as Hb'. apply mt_begin_Some in Hb' as [Hk _].
        destruct (IH (mt_erase k m) (snd (draw (bucket_count m) q)))
          as (fuel & r & Hr).
        * eapply fair_draws_weaken;
          [exact Hfair | apply mt_erase_subseteq | done |].
          pose proof (draw_pos (bucket_count m) q). lia.
        * done.
        * pose proof (mt_erase_size k m Hk). lia.
        * exists (S fuel), r. rewrite Set_evict_unfold.
          destruct (Z.gtb_spec (DynamicUsage m) nMax); [|lia].
          by rewrite Hb.
      + by apply (mt_begin_None _ _ key) in Hb.
    - destruct (mt_begin (fst (draw (bucket_count m) p)) m) as [k|] eqn:Hb.
      + pose proof Hb as Hb'. apply mt_begin_Some in Hb' as [Hk _].
        destruct (IH (mt_erase k m) (snd (draw (bucket_count m) p)))
          as (fuel & r & Hr).
        * eapply fair_draws_weaken;
          [exact Hfair | apply mt_erase_subseteq | done |].
          pose proof (draw_pos (bucket_count m) p). lia.
        * done.
        * pose proof (mt_erase_size k m Hk). lia.
        * exists (S fuel), r. rewrite Set_evict_unfold.
          destruct (Z.gtb_spec (DynamicUsage m) nMax); [|lia].
          by rewrite Hb.
      + pose proof (mt_begin_None _ _ key Hb Hkey) as Hnb.
        unfold GetRand in Hb, Hnb, Hdraw.
        destruct (bucket_count m =? 0) eqn:Hz; simpl in *; [congruence|].
        destruct (IHd (S p)) as (fuel & r & Hr); [lia | lia |].
        exists (S fuel), r. rewrite Set_evict_unfold.
        destruct (Z.gtb_spec (DynamicUsage m) nMax); [|lia].
        unfold GetRand. rewrite Hz. simpl. by rewrite Hb. }
  apply (Hinner (q - pos)%nat pos); lia.
Qed.

(** A loop that is over the bound and only ever draws empty buckets
    does not exit. *)
Lemma Set_evict_spins m :
  DynamicUsage m > nMax →
  (∀ p, mt_begin (fst (draw (bucket_count m) p)) m = None) →
  ∀ fuel p, evict fuel m p = None.
Proof.
  intros Hgt Hnone fuel. induction fuel as [|fuel IH]; intros p;
    rewrite Set_evict_unfold;
    destruct (Z.gtb_spec (DynamicUsage m) nMax); try lia; [done|].
  by rewrite Hnone.
Qed.

(** ** [Set] *)

Lemma nMaxCacheSize_range : 0 ≤ nMax < 2 ^ 64.
Proof. unfold nMaxCacheSize, to_size_t. apply Z.mod_pos_bound. lia. Qed.

(** A negative argument does not give a bound of zero. *)
Lemma nMaxCacheSize_negative :
  - 2 ^ 44 < maxsigcachesize < 0 →
  nMax = 2 ^ 64 + maxsigcachesize * 2 ^ 20 ∧ 0 < nMax.
Proof.
  intros H. unfold nMaxCacheSize, to_size_t.
  change (Z.shiftl 1 20) with (2 ^ 20).
  rewrite <- (Z.mod_add _ 1 (2 ^ 64)) by lia.
  rewrite Z.mod_small by lia. lia.
Qed.

Lemma Set_disabled fuel entry c pos :
  nMax = 0 → CacheSet fuel entry c pos = Some (c, pos).
Proof. intros H. unfold CSignatureCache_Set. by rewrite H. Qed.

Lemma Set_enabled fuel entry c pos :
  nMax ≠ 0 →
  CacheSet fuel entry c pos =
  match evict fuel (setValid c) pos with
  | Some (m, pos') =>
      Some ({| nonce := nonce c; setValid := store_insert entry m |}, pos')
  | None => None
  end.
Proof.
  intros H. unfold CSignatureCache_Set. pose proof nMaxCacheSize_range.
  destruct (Z.leb_spec nMax 0); [lia | done].
Qed.

Lemma mt_insert_elems key m : elems (store_insert key m) = {[key]} ∪ elems m.
Proof.
  unfold mt_insert. case_decide as Hin; simpl; [|done].
  apply leibniz_equiv. intros x. rewrite elem_of_union, elem_of_singleton.
  split; [tauto | intros [-> | ?]; done].
Qed.

Lemma Set_mono fuel fuel' entry c pos r :
  CacheSet fuel entry c pos = Some r → (fuel ≤ fuel')%nat →
  CacheSet fuel' entry c pos = Some r.
Proof.
  unfold CSignatureCache_Set. destruct (nMax <=? 0); [done|].
  destruct (evict fuel (setValid c) pos) as [[m pos']|] eqn:E; [|done].
  intros H Hle. by rewrite (Set_evict_mono _ _ _ _ _ E Hle).
Qed.

(** What [Set] leaves behind when it returns. *)
Lemma Set_post fuel entry c pos c' pos' :
  CacheSet fuel entry c pos = Some (c', pos') →
  nonce c' = nonce c
  ∧ elems (setValid c') ⊆ {[entry]} ∪ elems (setValid c)
  ∧ (nMax = 0 → c' = c ∧ pos' = pos)
  ∧ (nMax ≠ 0 →
       ∃ m, DynamicUsage m ≤ nMax ∧ setValid c' = store_insert entry m
            ∧ elems m ⊆ elems (setValid c)
            ∧ bucket_count m = bucket_count (setValid c)).
Proof.
  destruct (decide (nMax = 0)) as [Hz|Hnz].
  - rewrite Set_disabled by done. intros [= <- <-].
    repeat split; try done. apply union_subseteq_r.
  - rewrite Set_enabled by done.
    destruct (evict fuel (setValid c) pos) as [[m q]|] eqn:E; [|done].
    intros [= <- <-]. apply Set_evict_post in E as (Hu & Hsub & Hbc & _).
    simpl. rewrite mt_insert_elems. repeat split; try done.
    + by apply union_mono_l.
    + intros _. by exists m.
Qed.

Lemma Set_exits entry c pos :
  exits (setValid c) pos → ∃ fuel r, CacheSet fuel entry c pos = Some r.
Proof.
  intros H. destruct (decide (nMax = 0)) as [Hz|Hnz].
  - exists O, (c, pos). by apply Set_disabled.
  - destruct (Set_evict_exits _ _ H) as (fuel & [m q] & E).
    exists fuel. rewrite Set_enabled by done. rewrite E. eauto.
Qed.

(** ** [VerifySignature] *)

Lemma mt_count_test entry m :
  negb (mt_count entry m =? 0) = bool_decide (entry ∈ elems m).
Proof.
  unfold mt_count.
  by case_decide; [rewrite bool_decide_eq_true_2 | rewrite bool_decide_eq_false_2].
Qed.

Lemma Get_spec entry c :
  CSignatureCache_Get entry c = (bool_decide (entry ∈ elems (setValid c)), c).
Proof. unfold CSignatureCache_Get. by rewrite mt_count_test. Qed.

Lemma ComputeEntry_message c hash vchSig pubkey :
  ComputeEntry c hash vchSig pubkey
  = CSHA256_Finalize sha256 (entry_message c hash vchSig pubkey).
Proof.
  unfold CSignatureCache_ComputeEntry, entry_message, CSHA256_Write, CSHA256_init.
  unfold uint256_bytes. rewrite app_nil_l, <- !(assoc_L (++)). done.
Qed.

Lemma ComputeEntry_nonce c c' hash vchSig pubkey :
  nonce c' = nonce c →
  ComputeEntry c' hash vchSig pubkey = ComputeEntry c hash vchSig pubkey.
Proof. intros H. unfold CSignatureCache_ComputeEntry. by rewrite H. Qed.

Lemma members_enter p : members p = elems (setValid (fst (enter p))).
Proof.
  unfold members, enter_static.
  by destruct (VerifySignature_signatureCache p).
Qed.

(** A call that finds its fingerprint. *)
Lemma Verify_hit fuel store vchSig pubkey sighash p :
  fp p vchSig pubkey sighash ∈ members p →
  Verify fuel store vchSig pubkey sighash p =
  (Returned true,
   leave p
     (if negb store
      then CSignatureCache_Erase (fp p vchSig pubkey sighash) (fst (enter p))
      else fst (enter p))
     (snd (enter p)) (base_calls p)).
Proof.
  rewrite members_enter. unfold VerifySignature, fingerprint.
  destruct (enter p) as [c pos]. simpl. intros Hin.
  rewrite mt_count_test. by rewrite bool_decide_eq_true_2.
Qed.

(** A call that does not. *)
Lemma Verify_miss fuel store vchSig pubkey sighash p :
  fp p vchSig pubkey sighash ∉ members p →
  Verify fuel store vchSig pubkey sighash p =
  let c := fst (enter p) in
  let pos := snd (enter p) in
  let calls := base_calls p ++ [(vchSig, pubkey, sighash)] in
  if negb (baseVerify vchSig pubkey sighash) then
    (Returned false, leave p c pos calls)
  else if store then
    match CacheSet fuel (fp p vchSig pubkey sighash) c pos with
    | Some (c', pos') => (Returned true, leave p c' pos' calls)
    | None => (Evicting, leave p c pos calls)
    end
  else (Returned true, leave p c pos calls).
Proof.
  rewrite members_enter. unfold VerifySignature, fingerprint.
  destruct (enter p) as [c pos]. simpl. intros Hin.
  rewrite mt_count_test. by rewrite bool_decide_eq_false_2.
Qed.

(** The cache object keeps its nonce over a call, so a triple keeps its
    fingerprint. *)
Lemma Verify_nonce fuel store vchSig pubkey sighash p :
  nonce (fst (enter (snd (Verify fuel store vchSig pubkey sighash p))))
  = nonce (fst (enter p)).
Proof.
  destruct (decide (fp p vchSig pubkey sighash ∈ members p)) as [Hin|Hin].
  - rewrite Verify_hit by done. simpl. by destruct store.
  - rewrite Verify_miss by done. simpl.
    destruct (baseVerify vchSig pubkey sighash); simpl; [|done].
    destruct store; [|done].
    destruct (CacheSet _ _ _ _) as [[c' pos']|] eqn:E; [|done].
    simpl. by apply Set_post in E as (? & _).
Qed.

Lemma Verify_fingerprint fuel store vchSig pubkey sighash p vchSig' pubkey' sighash' :
  fp (snd (Verify fuel store vchSig pubkey sighash p)) vchSig' pubkey' sighash'
  = fp p vchSig' pubkey' sighash'.
Proof. unfold fingerprint. apply ComputeEntry_nonce, Verify_nonce. Qed.

(** A call adds at most its own fingerprint, and only for a triple that
    the base verifier accepts. *)
Lemma Verify_members fuel store vchSig pubkey sighash p e :
  e ∈ members (snd (Verify fuel store vchSig pubkey sighash p)) →
  e ∈ members p
  ∨ (e = fp p vchSig pubkey sighash ∧ baseVerify vchSig pubkey sighash = true).
Proof.
  destruct (decide (fp p vchSig pubkey sighash ∈ members p)) as [Hin|Hin].
  - rewrite Verify_hit by done. simpl.
    rewrite (members_enter p). destruct store; simpl; [by left|].
    intros He. left. by apply elem_of_difference in He as [? _].
  - rewrite Verify_miss by done. simpl. rewrite (members_enter p).
    destruct (baseVerify vchSig pubkey sighash); simpl; [|by left].
    destruct store; [|by left].
    destruct (CacheSet _ _ _ _) as [[c' pos']|] eqn:E; simpl; [|by left].
    apply Set_post in E as (_ & Hsub & _). intros He.
    apply Hsub, elem_of_union in He as [He|He]; [|by left].
    apply elem_of_singleton in He. by right.
Qed.

Lemma Verify_all_verified fuel store vchSig pubkey sighash p :
  verified p → verified (snd (Verify fuel store vchSig pubkey sighash p)).
Proof.
  intros Hv e He. apply Verify_members in He as [He|[-> Hb]].
  - destruct (Hv e He) as (s & k & h & Hb & ->).
    exists s, k, h. by rewrite Verify_fingerprint.
  - exists vchSig, pubkey, sighash. by rewrite Verify_fingerprint.
Qed.

Lemma Reachable_all_verified p : reachable p → verified p.
Proof.
  induction 1 as [p Hnone|p fuel store s k h b p' _ IH Hcall].
  - intros e He. unfold members in He. rewrite Hnone in He.
    by apply not_elem_of_empty in He.
  - pose proof (Verify_all_verified fuel store s k h p IH) as H.
    by rewrite Hcall in H.
Qed.

(** ** The claims of the design document *)

(** C1 (amended). When population is enabled (the bound, as a [size_t], is
    not zero), the triple is accepted by the base verifier, its fingerprint
    is not in the cache yet and the eviction loop exits (fair draws, bucket
    array within the bound), the call with [store = true] returns [true]
    after exactly one call of the base verifier, and the same call made
    again returns [true] without any call of the base verifier. *)
Theorem repeat_call_hits_cache vchSig pubkey sighash p :
  baseVerify vchSig pubkey sighash = true →
  nMax ≠ 0 →
  fp p vchSig pubkey sighash ∉ members p →
  exits (setValid (fst (enter p))) (snd (enter p)) →
  ∃ fuel p1,
    (∀ fuel', (fuel ≤ fuel')%nat →
       Verify fuel' true vchSig pubkey sighash p = (Returned true, p1))
    ∧ base_calls p1 = base_calls p ++ [(vchSig, pubkey, sighash)]
    ∧ (∀ fuel2, ∃ p2,
         Verify fuel2 true vchSig pubkey sighash p1 = (Returned true, p2)
         ∧ base_calls p2 = base_calls p1).
Proof.
  intros Hvalid Hnz Hmiss Hexit.
  destruct (Set_exits (fp p vchSig pubkey sighash) _ _ Hexit)
    as (fuel & [c' pos'] & Hset).
  exists fuel,
    (leave p c' pos' (base_calls p ++ [(vchSig, pubkey, sighash)])).
  split; [|split; [done|]].
  - intros fuel' Hle. rewrite Verify_miss by done. simpl.
    rewrite Hvalid. simpl. by rewrite (Set_mono _ _ _ _ _ _ Hset Hle).
  - intros fuel2.
    set (p1 := leave p c' pos' _).
    pose proof Hset as Hpost.
    apply Set_post in Hpost as (Hnonce & _ & _ & Hins).
    destruct (Hins Hnz) as (m & _ & Hm & _).
    assert (fp p1 vchSig pubkey sighash = fp p vchSig pubkey sighash) as Hfp.
    { unfold fingerprint. by apply ComputeEntry_nonce. }
    assert (fp p1 vchSig pubkey sighash ∈ members p1) as Hin.
    { rewrite Hfp. unfold p1, members. simpl. rewrite Hm, mt_insert_elems.
      apply elem_of_union_l. by apply elem_of_singleton. }
    eexists. by rewrite Verify_hit.
Qed.

(** C2 (amended). For a triple that the base verifier rejects and whose
    fingerprint is not the fingerprint of any triple that it accepts, in
    every state the process can reach, every call returns [false] and
    calls the base verifier, whatever [store] is, and leaves the cache as
    it was. *)
Theorem invalid_is_never_cached vchSig pubkey sighash p :
  baseVerify vchSig pubkey sighash = false →
  reachable p →
  no_valid_collision sha256 baseVerify (fst (enter p)) vchSig pubkey sighash →
  ∀ fuel store, ∃ p',
    Verify fuel store vchSig pubkey sighash p = (Returned false, p')
    ∧ base_calls p' = base_calls p ++ [(vchSig, pubkey, sighash)]
    ∧ members p' = members p
    ∧ enter p' = enter p
    ∧ reachable p'.
Proof.
  intros Hinvalid Hreach Hcoll fuel store.
  assert (fp p vchSig pubkey sighash ∉ members p) as Hmiss.
  { intros Hin.
    destruct (Reachable_all_verified p Hreach _ Hin) as (s & k & h & Hb & He).
    by apply (Hcoll s k h Hb). }
  pose proof (Verify_miss fuel store vchSig pubkey sighash p Hmiss) as Hcall.
  simpl in Hcall. rewrite Hinvalid in Hcall. simpl in Hcall.
  eexists. split; [exact Hcall|]. repeat split.
  - by rewrite (members_enter p).
  - by destruct (enter p).
  - by eapply reach_call.
Qed.

(** C3 (amended). With a bound that is not zero, whenever [Set] returns
    the store is the result of inserting the fingerprint into a store whose
    estimated footprint is within the bound: the bound holds just before
    the insertion, and the footprint at return exceeds it by no more than
    what the insertion of that one fingerprint adds (nothing when it was
    already held).  And [Set] does return when the eviction loop has fair
    draws and the bucket array alone is within the bound. *)
Theorem Set_bound_before_insertion entry c pos :
  nMaxCacheSize maxsigcachesize ≠ 0 →
  (∀ fuel c' pos',
     CSignatureCache_Set DynamicUsage rand maxsigcachesize rehash_policy
       fuel entry c pos = Some (c', pos') →
     ∃ m,
       DynamicUsage m ≤ nMaxCacheSize maxsigcachesize
       ∧ setValid c' = mt_insert rehash_policy entry m
       ∧ elems m ⊆ elems (setValid c)
       ∧ bucket_count m = bucket_count (setValid c)
       ∧ (entry ∈ elems m →
          DynamicUsage (setValid c') ≤ nMaxCacheSize maxsigcachesize))
  ∧ (eviction_exits DynamicUsage rand maxsigcachesize (setValid c) pos →
     ∃ fuel r,
       CSignatureCache_Set DynamicUsage rand maxsigcachesize rehash_policy
         fuel entry c pos = Some r).
Proof.
  intros Hnz. split; [|apply Set_exits].
  intros fuel c' pos' Hset. apply Set_post in Hset as (_ & _ & _ & Hins).
  destruct (Hins Hnz) as (m & Hu & Hm & Hsub & Hbc).
  exists m. repeat split; try done.
  intros Hin. rewrite Hm. unfold mt_insert. by rewrite decide_True.
Qed.

(** C4. When the fingerprint of the triple is in the cache, the call with
    [store = false] returns [true] without calling the base verifier and
    removes the fingerprint; the same call with [store = true] made next
    calls the base verifier. *)
Theorem non_storing_hit_purges vchSig pubkey sighash p :
  fp p vchSig pubkey sighash ∈ members p →
  ∀ fuel, ∃ p1,
    Verify fuel false vchSig pubkey sighash p = (Returned true, p1)
    ∧ base_calls p1 = base_calls p
    ∧ members p1 = members p ∖ {[fp p vchSig pubkey sighash]}
    ∧ fp p1 vchSig pubkey sighash = fp p vchSig pubkey sighash
    ∧ (fp p1 vchSig pubkey sighash ∉ members p1)
    ∧ (∀ fuel2,
         base_calls (snd (Verify fuel2 true vchSig pubkey sighash p1))
         = base_calls p1 ++ [(vchSig, pubkey, sighash)]).
Proof.
  intros Hin fuel. eexists. split; [by apply Verify_hit|]. simpl.
  set (p1 := leave p _ _ _).
  assert (members p1 = members p ∖ {[fp p vchSig pubkey sighash]}) as Hm.
  { unfold p1, members at 1. simpl. by rewrite (members_enter p). }
  assert (fp p1 vchSig pubkey sighash = fp p vchSig pubkey sighash) as Hfp.
  { unfold fingerprint. by apply ComputeEntry_nonce. }
  assert (fp p1 vchSig pubkey sighash ∉ members p1) as Hout.
  { rewrite Hfp, Hm. intros H. apply elem_of_difference in H as [_ H].
    apply H. by apply elem_of_singleton. }
  repeat split; try done.
  intros fuel2. rewrite Verify_miss by done. simpl.
  destruct (baseVerify vchSig pubkey sighash); simpl; [|done].
  by destruct (CacheSet _ _ _ _) as [[c' pos']|].
Qed.

(** C6 (amended). [Set] returns when the eviction loop has fair draws
    (the bucket of every key is drawn again after any point) and the
    estimate of the emptied store, the bucket array alone, is within the
    bound; from then on more rounds change nothing. *)
Theorem Set_terminates entry c pos :
  eviction_exits DynamicUsage rand maxsigcachesize (setValid c) pos →
  ∃ fuel r, ∀ fuel', (fuel ≤ fuel')%nat →
    CSignatureCache_Set DynamicUsage rand maxsigcachesize rehash_policy
      fuel' entry c pos = Some r.
Proof.
  intros H. destruct (Set_exits entry c pos H) as (fuel & r & Hr).
  exists fuel, r. intros fuel' Hle. by apply (Set_mono fuel).
Qed.

(** C7. The fingerprint is the 256-bit digest of the nonce, the message
    digest, the key bytes and the signature bytes, in this order, each
    blob contributing its 32 bytes; it depends on nothing else, and a
    cache derives the same fingerprint for the same triple before and
    after any call. *)
Theorem fingerprint_is_keyed_digest c hash vchSig pubkey :
  ComputeEntry c hash vchSig pubkey
  = CSHA256_Finalize sha256
      (uint256_bytes (nonce c) ++ uint256_bytes hash ++ pubkey ++ vchSig)
  ∧ is_uint256 (ComputeEntry c hash vchSig pubkey)
  ∧ length (uint256_bytes (nonce c)) = 32%nat
  ∧ length (uint256_bytes hash) = 32%nat
  ∧ (∀ fuel store s k h p,
       fp (snd (Verify fuel store s k h p)) vchSig pubkey hash
       = fp p vchSig pubkey hash).
Proof.
  split; [apply ComputeEntry_message|].
  split; [apply to_uint256_range|].
  split; [apply le_bytes_length|].
  split; [apply le_bytes_length|].
  intros. apply Verify_fingerprint.
Qed.

(** C8. Two caches whose nonces differ derive different fingerprints for
    one and the same triple, provided the digest does not collide on the
    two messages they feed to it. *)
Theorem distinct_nonces_separate c1 c2 hash vchSig pubkey :
  is_uint256 (nonce c1) → is_uint256 (nonce c2) →
  nonce c1 ≠ nonce c2 →
  (CSHA256_Finalize sha256 (entry_message c1 hash vchSig pubkey)
   = CSHA256_Finalize sha256 (entry_message c2 hash vchSig pubkey) →
   entry_message c1 hash vchSig pubkey = entry_message c2 hash vchSig pubkey) →
  ComputeEntry c1 hash vchSig pubkey ≠ ComputeEntry c2 hash vchSig pubkey.
Proof.
  intros H1 H2 Hne Hcoll Heq. rewrite !ComputeEntry_message in Heq.
  apply Hcoll in Heq. unfold entry_message in Heq.
  apply app_inv_tail in Heq. by apply uint256_bytes_inj in Heq.
Qed.

(** C9. [Get] answers [true] exactly for the fingerprints that are in the
    store, and leaves the cache, its set and the estimate of its memory,
    as they were. *)
Theorem Get_is_membership_and_read_only entry c :
  (fst (CSignatureCache_Get entry c) = true ↔ entry ∈ elems (setValid c))
  ∧ snd (CSignatureCache_Get entry c) = c
  ∧ DynamicUsage (setValid (snd (CSignatureCache_Get entry c)))
    = DynamicUsage (setValid c).
Proof.
  rewrite Get_spec. simpl. split; [apply bool_decide_eq_true | done].
Qed.

(** C10. [VerifySignature] works on its function-local static cache only:
    the namespace-scope [signatureCache] is left as it is, and replacing it
    by any other cache object changes neither the value returned nor the
    rest of the resulting process. *)
Theorem outer_signatureCache_is_inert o fuel store vchSig pubkey sighash p :
  signatureCache (snd (Verify fuel store vchSig pubkey sighash p))
  = signatureCache p
  ∧ Verify fuel store vchSig pubkey sighash (with_signatureCache o p)
    = (fst (Verify fuel store vchSig pubkey sighash p),
       with_signatureCache o (snd (Verify fuel store vchSig pubkey sighash p))).
Proof.
  destruct (decide (fp p vchSig pubkey sighash ∈ members p)) as [Hin|Hin].
  - rewrite (Verify_hit _ _ _ _ _ (with_signatureCache o p)) by done.
    by rewrite Verify_hit.
  - rewrite (Verify_miss _ _ _ _ _ (with_signatureCache o p)) by done.
    rewrite Verify_miss by done. simpl.
    change (enter (with_signatureCache o p)) with (enter p).
    change (fp (with_signatureCache o p)) with (fp p).
    destruct (negb (baseVerify vchSig pubkey sighash)); [done|].
    destruct store; [|done].
    by destruct (CacheSet _ _ _ _) as [[c' pos']|].
Qed.

(** ** Further properties of the cache object *)

Lemma mt_erase_absent key m : key ∉ elems m → mt_erase key m = m.
Proof.
  intros Hout. destruct m as [e b]. unfold mt_erase. simpl in *. f_equal.
  apply difference_disjoint_L. by apply disjoint_singleton_r.
Qed.

Lemma Set_evict_minimal fuel m pos m' pos' :
  evict fuel m pos = Some (m', pos') →
  m' = m
  ∨ ∃ m0 key,
      key ∈ elems m0 ∧ elems m0 ⊆ elems m
      ∧ bucket_count m0 = bucket_count m
      ∧ nMax < DynamicUsage m0 ∧ m' = mt_erase key m0.
Proof.
  revert m pos. induction fuel as [|fuel IH]; intros m pos;
    rewrite Set_evict_unfold;
    destruct (Z.gtb_spec (DynamicUsage m) nMax) as [Hgt|Hle]; try done.
  - intros [= <- <-]. by left.
  - destruct (mt_begin _ m) as [key|] eqn:Hb; intros H.
    + apply mt_begin_Some in Hb as [Hkey _].
      apply IH in H as [->|(m0 & k & Hk & Hsub & Hbc & Hu & ->)]; right.
      * exists m, key. repeat split; (done || lia).
      * exists m0, k. repeat split; try done.
        etrans; [exact Hsub | apply mt_erase_subseteq].
    + apply IH in H. done.
  - intros [= <- <-]. by left.
Qed.

Lemma Set_evict_rounds fuel m pos m' pos' :
  evict fuel m pos = Some (m', pos') →
  (size (elems m) ≤ size (elems m') + fuel)%nat.
Proof.
  revert m pos. induction fuel as [|fuel IH]; intros m pos;
    rewrite Set_evict_unfold;
    destruct (Z.gtb_spec (DynamicUsage m) nMax) as [Hgt|Hle]; try done;
    try (intros [= <- <-]; lia).
  destruct (mt_begin _ m) as [key|] eqn:Hb; intros H.
  - apply mt_begin_Some in Hb as [Hkey _]. apply IH in H. simpl in H.
    assert (size (elems m ∖ {[key]}) = size (elems m) - 1)%nat as Hone.
    { rewrite size_difference by (by apply singleton_subseteq_l).
      by rewrite size_singleton. }
    lia.
  - apply IH in H. lia.
Qed.

(** X1. [Get] after [Erase]: the erased fingerprint is not found, every
    other fingerprint is found exactly when it was found before; [Erase]
    keeps the nonce and the bucket array. *)
Theorem Get_after_Erase entry entry' c :
  fst (CSignatureCache_Get entry' (CSignatureCache_Erase entry c))
  = fst (CSignatureCache_Get entry' c) && negb (entry' =? entry)
  ∧ nonce (CSignatureCache_Erase entry c) = nonce c
  ∧ bucket_count (setValid (CSignatureCache_Erase entry c))
    = bucket_count (setValid c).
Proof.
  split; [|done]. rewrite !Get_spec. simpl.
  destruct (Z.eqb_spec entry' entry) as [->|Hne]; simpl.
  - rewrite andb_false_r. apply bool_decide_eq_false_2.
    intros H. apply elem_of_difference in H as [_ H].
    apply H. by apply elem_of_singleton.
  - rewrite andb_true_r. apply bool_decide_ext.
    rewrite elem_of_difference, elem_of_singleton. tauto.
Qed.

(** X2. [Erase] of a fingerprint that is not in the store changes
    nothing, and erasing twice is erasing once. *)
Theorem Erase_absent_or_twice entry c :
  (entry ∉ elems (setValid c) → CSignatureCache_Erase entry c = c)
  ∧ CSignatureCache_Erase entry (CSignatureCache_Erase entry c)
    = CSignatureCache_Erase entry c.
Proof.
  split.
  - intros Hout. destruct c as [n m]. unfold CSignatureCache_Erase.
    simpl in *. by rewrite mt_erase_absent.
  - unfold CSignatureCache_Erase. simpl. f_equal. apply mt_erase_absent.
    simpl. intros H. apply elem_of_difference in H as [_ H].
    apply H. by apply elem_of_singleton.
Qed.

(** X3. When [Set] returns with a bound that is not zero, [Get] finds
    the fingerprint just set; whatever else [Get] finds was in the store
    before; the nonce is kept. *)
Theorem Get_after_Set fuel entry c pos c' pos' :
  nMaxCacheSize maxsigcachesize ≠ 0 →
  CSignatureCache_Set DynamicUsage rand maxsigcachesize rehash_policy
    fuel entry c pos = Some (c', pos') →
  fst (CSignatureCache_Get entry c') = true
  ∧ (∀ entry', fst (CSignatureCache_Get entry' c') = true →
       entry' = entry ∨ fst (CSignatureCache_Get entry' c) = true)
  ∧ nonce c' = nonce c.
Proof.
  intros Hnz Hset. apply Set_post in Hset as (Hn & Hsub & _ & Hins).
  destruct (Hins Hnz) as (m & _ & Hm & _).
  rewrite Get_spec. simpl. split; [|split; [|done]].
  - apply bool_decide_eq_true_2. rewrite Hm, mt_insert_elems.
    apply elem_of_union_l. by apply elem_of_singleton.
  - intros entry'. rewrite !mt_count_test, !bool_decide_eq_true.
    intros H. apply Hsub, elem_of_union in H as [H|H]; [left|by right].
    by apply elem_of_singleton in H.
Qed.

(** X4. [Set] on a store whose estimate is within a bound that is not
    zero evicts nothing and draws no random value: it returns at once,
    whatever the fuel, with the fingerprint added to the keys held. *)
Theorem Set_within_bound_evicts_nothing fuel entry c pos :
  nMaxCacheSize maxsigcachesize ≠ 0 →
  DynamicUsage (setValid c) ≤ nMaxCacheSize maxsigcachesize →
  ∃ c',
    CSignatureCache_Set DynamicUsage rand maxsigcachesize rehash_policy
      fuel entry c pos = Some (c', pos)
    ∧ elems (setValid c') = {[entry]} ∪ elems (setValid c)
    ∧ nonce c' = nonce c.
Proof.
  intros Hnz Hu. rewrite Set_enabled by done.
  rewrite Set_evict_under by done. eexists. split; [done|].
  simpl. by rewrite mt_insert_elems.
Qed.

(** X5. [Set] of a fingerprint that the store already holds, the store
    being within the bound, leaves the cache and the random source as
    they are. *)
Theorem Set_of_present_entry_is_noop fuel entry c pos :
  entry ∈ elems (setValid c) →
  DynamicUsage (setValid c) ≤ nMaxCacheSize maxsigcachesize →
  CSignatureCache_Set DynamicUsage rand maxsigcachesize rehash_policy
    fuel entry c pos = Some (c, pos).
Proof.
  intros Hin Hu. destruct (decide (nMax = 0)) as [Hz|Hnz].
  - by apply Set_disabled.
  - rewrite Set_enabled by done. rewrite Set_evict_under by done.
    unfold mt_insert. rewrite decide_True by done. by destruct c.
Qed.

(** X6. The eviction of [Set] removes no more than needed: when [Set]
    returns having evicted something, the store was still above the bound
    just before the last key was erased. *)
Theorem Set_evicts_no_more_than_needed fuel entry c pos c' pos' :
  nMaxCacheSize maxsigcachesize ≠ 0 →
  CSignatureCache_Set DynamicUsage rand maxsigcachesize rehash_policy
    fuel entry c pos = Some (c', pos') →
  ∃ m,
    setValid c' = mt_insert rehash_policy entry m
    ∧ (m = setValid c
       ∨ ∃ m0 key,
           key ∈ elems m0 ∧ elems m0 ⊆ elems (setValid c)
           ∧ bucket_count m0 = bucket_count (setValid c)
           ∧ nMaxCacheSize maxsigcachesize < DynamicUsage m0
           ∧ m = mt_erase key m0).
Proof.
  intros Hnz. rewrite Set_enabled by done.
  destruct (evict fuel (setValid c) pos) as [[m q]|] eqn:E; [|done].
  intros [= <- <-]. exists m. split; [done|].
  by apply Set_evict_minimal in E.
Qed.

(** X7. Each round of the eviction loop erases at most one key: when
    [Set] returns within [fuel] rounds, the store into which the
    fingerprint is inserted has lost at most [fuel] of the keys held
    before, and has gained none. *)
Theorem Set_evicts_at_most_one_key_per_round fuel entry c pos c' pos' :
  nMaxCacheSize maxsigcachesize ≠ 0 →
  CSignatureCache_Set DynamicUsage rand maxsigcachesize rehash_policy
    fuel entry c pos = Some (c', pos') →
  ∃ m,
    setValid c' = mt_insert rehash_policy entry m
    ∧ elems m ⊆ elems (setValid c)
    ∧ (size (elems (setValid c)) ≤ size (elems m) + fuel)%nat.
Proof.
  intros Hnz. rewrite Set_enabled by done.
  destruct (evict fuel (setValid c) pos) as [[m q]|] eqn:E; [|done].
  intros [= <- <-]. exists m. split; [done|].
  pose proof (Set_evict_rounds _ _ _ _ _ E) as Hr.
  apply Set_evict_post in E as (_ & Hsub & _). done.
Qed.

(** X8. The bound is the argument in mebibytes as long as the argument is
    in [[0, 2^44)]; the product wraps in [size_t], so the bound is zero,
    and [Set] stores nothing, exactly for the multiples of [2^44]. *)
Theorem nMaxCacheSize_wraps_at_2_44 :
  (nMaxCacheSize maxsigcachesize = 0 ↔ maxsigcachesize `mod` 2 ^ 44 = 0)
  ∧ nMaxCacheSize maxsigcachesize = (maxsigcachesize `mod` 2 ^ 44) * 2 ^ 20
  ∧ (maxsigcachesize `mod` 2 ^ 44 = 0 →
     ∀ fuel entry c pos,
       CSignatureCache_Set DynamicUsage rand maxsigcachesize rehash_policy
         fuel entry c pos = Some (c, pos)).
Proof.
  assert (nMax = (maxsigcachesize `mod` 2 ^ 44) * 2 ^ 20) as Heq.
  { unfold nMaxCacheSize, to_size_t. change (Z.shiftl 1 20) with (2 ^ 20).
    change (2 ^ 64) with (2 ^ 44 * 2 ^ 20).
    by rewrite Z.mul_mod_distr_r by lia. }
  split; [rewrite Heq; lia|]. split; [done|].
  intros Hz fuel entry c pos. apply Set_disabled. rewrite Heq, Hz. lia.
Qed.

(** ** Further properties of [VerifySignature] *)

Lemma Reachable_nonce p : reachable p → is_uint256 (nonce (fst (enter p))).
Proof.
  induction 1 as [p Hnone|p fuel store s k h b p' _ IH Hcall].
  - unfold enter_static. rewrite Hnone. apply to_uint256_range.
  - pose proof (Verify_nonce fuel store s k h p) as Hn.
    rewrite Hcall in Hn. simpl in Hn. by rewrite Hn.
Qed.

Lemma members_static p :
  members p ≠ ∅ →
  leave p (fst (enter p)) (snd (enter p)) (base_calls p) = p.
Proof.
  destruct p as [o [c|] pos calls]; unfold members; simpl; [done|].
  intros H. by destruct H.
Qed.

(** With a bound of zero a call on an empty cache returns what the base
    verifier answers and leaves the cache empty. *)
Lemma Verify_disabled fuel store vchSig pubkey sighash p :
  nMax = 0 → members p = ∅ →
  Verify fuel store vchSig pubkey sighash p
  = (Returned (baseVerify vchSig pubkey sighash),
     leave p (fst (enter p)) (snd (enter p))
       (base_calls p ++ [(vchSig, pubkey, sighash)])).
Proof.
  intros Hz He. rewrite Verify_miss by (rewrite He; apply not_elem_of_empty).
  simpl. destruct (baseVerify vchSig pubkey sighash); simpl; [|done].
  destruct store; [|done]. rewrite Set_disabled by done.
  by destruct (enter p).
Qed.

Lemma Reachable_disabled p : nMax = 0 → reachable p → members p = ∅.
Proof.
  intros Hz. induction 1 as [p Hnone|p fuel store s k h b p' _ IH Hcall].
  - unfold members. by rewrite Hnone.
  - rewrite Verify_disabled in Hcall by done. injection Hcall as _ <-.
    unfold members. simpl. by rewrite <- members_enter.
Qed.

(** X9. In every state the process can reach, a call returns [false]
    only for a triple that the base verifier has just rejected, and
    returns [true] only for a fingerprint that is the fingerprint of a
    triple the base verifier accepts. *)
Theorem Verify_answers_from_the_base_verifier
    fuel store vchSig pubkey sighash p b p' :
  Reachable sha256 baseVerify DynamicUsage rand maxsigcachesize
    default_buckets rehash_policy p →
  VerifySignature sha256 baseVerify DynamicUsage rand maxsigcachesize
    default_buckets rehash_policy fuel store vchSig pubkey sighash p
  = (Returned b, p') →
  (b = false →
   baseVerify vchSig pubkey sighash = false
   ∧ fp p vchSig pubkey sighash ∉ members p)
  ∧ (b = true →
     ∃ vchSig' pubkey' sighash',
       baseVerify vchSig' pubkey' sighash' = true
       ∧ fp p vchSig' pubkey' sighash' = fp p vchSig pubkey sighash).
Proof.
  intros Hreach.
  destruct (decide (fp p vchSig pubkey sighash ∈ members p)) as [Hin|Hin].
  - rewrite Verify_hit by done. intros [= <- _]. split; [done|]. intros _.
    destruct (Reachable_all_verified p Hreach _ Hin) as (s & k & h & Hb & He).
    by exists s, k, h.
  - rewrite Verify_miss by done. simpl.
    destruct (baseVerify vchSig pubkey sighash) eqn:Hb; simpl.
    + assert (b = true → ∃ s k h, baseVerify s k h = true
                ∧ fp p s k h = fp p vchSig pubkey sighash) as Hok.
      { intros _. by exists vchSig, pubkey, sighash. }
      destruct store.
      * destruct (CacheSet _ _ _ _) as [[c' pos']|]; [|done].
        intros [= <- _]. by split.
      * intros [= <- _]. by split.
    + intros [= <- _]. by split.
Qed.

(** X10. In every state the process can reach, every fingerprint in the
    cache is the fingerprint of a triple that the base verifier accepts,
    and the nonce of the cache is a 256-bit value. *)
Theorem cache_holds_verified_fingerprints p :
  Reachable sha256 baseVerify DynamicUsage rand maxsigcachesize
    default_buckets rehash_policy p →
  all_verified sha256 baseVerify rand default_buckets p
  ∧ is_uint256 (nonce (fst (enter_static rand default_buckets p))).
Proof.
  intros H. split; [by apply Reachable_all_verified | by apply Reachable_nonce].
Qed.

(** X11. A call with [store = false] whose fingerprint is not in the
    cache returns what the base verifier answers, after one call of it,
    and leaves the cache and the random source as they were. *)
Theorem non_storing_miss_leaves_cache fuel vchSig pubkey sighash p :
  fp p vchSig pubkey sighash ∉ members p →
  ∃ p',
    Verify fuel false vchSig pubkey sighash p
    = (Returned (baseVerify vchSig pubkey sighash), p')
    ∧ base_calls p' = base_calls p ++ [(vchSig, pubkey, sighash)]
    ∧ enter p' = enter p
    ∧ members p' = members p.
Proof.
  intros Hmiss. rewrite Verify_miss by done. simpl.
  destruct (baseVerify vchSig pubkey sighash); simpl;
    (eexists; split; [done|]; repeat split;
     [by destruct (enter p) | by rewrite (members_enter p)]).
Qed.

(** X12. A call with [store = true] whose fingerprint is in the cache
    returns [true] and changes nothing at all: no call of the base
    verifier, no random value drawn, the same cache. *)
Theorem storing_hit_changes_nothing fuel vchSig pubkey sighash p :
  fp p vchSig pubkey sighash ∈ members p →
  Verify fuel true vchSig pubkey sighash p = (Returned true, p).
Proof.
  intros Hin. rewrite Verify_hit by done. simpl. f_equal.
  apply members_static. intros He. rewrite He in Hin.
  by apply not_elem_of_empty in Hin.
Qed.

(** X13. A call makes at most one call of the base verifier, on its own
    triple, and makes it exactly when the fingerprint is not in the
    cache. *)
Theorem base_verifier_called_iff_miss fuel store vchSig pubkey sighash p :
  base_calls (snd (Verify fuel store vchSig pubkey sighash p))
  = if bool_decide (fp p vchSig pubkey sighash ∈ members p)
    then base_calls p
    else base_calls p ++ [(vchSig, pubkey, sighash)].
Proof.
  case_bool_decide as Hin.
  - by rewrite Verify_hit.
  - rewrite Verify_miss by done. simpl.
    destruct (baseVerify vchSig pubkey sighash); simpl; [|done].
    destruct store; [|done].
    by destruct (CacheSet _ _ _ _) as [[c' pos']|].
Qed.

(** X14. A call returns, whatever the fuel, unless it is a storing call
    for an accepted triple that is not cached, with a bound that is not
    zero and a store estimated above it: only then is the eviction loop
    entered. *)
Theorem Verify_returns_outside_eviction store vchSig pubkey sighash p :
  (∀ fuel, ∃ b p',
     Verify fuel store vchSig pubkey sighash p = (Returned b, p'))
  ∨ (store = true
     ∧ baseVerify vchSig pubkey sighash = true
     ∧ (fp p vchSig pubkey sighash ∉ members p)
     ∧ nMaxCacheSize maxsigcachesize ≠ 0
     ∧ nMaxCacheSize maxsigcachesize
       < DynamicUsage (setValid (fst (enter p)))).
Proof.
  destruct (decide (fp p vchSig pubkey sighash ∈ members p)) as [Hin|Hin].
  { left. intros fuel. rewrite Verify_hit by done. eauto. }
  destruct (baseVerify vchSig pubkey sighash) eqn:Hb; cycle 1.
  { left. intros fuel. rewrite Verify_miss by done. simpl. rewrite Hb.
    simpl. eauto. }
  destruct store; cycle 1.
  { left. intros fuel. rewrite Verify_miss by done. simpl. rewrite Hb.
    simpl. eauto. }
  destruct (decide (nMax = 0)) as [Hz|Hnz].
  { left. intros fuel. rewrite Verify_miss by done. simpl. rewrite Hb.
    simpl. rewrite Set_disabled by done. eauto. }
  destruct (decide (DynamicUsage (setValid (fst (enter p))) ≤ nMax))
    as [Hle|Hgt].
  { left. intros fuel. rewrite Verify_miss by done. simpl. rewrite Hb.
    simpl. rewrite Set_enabled by done. rewrite Set_evict_under by done.
    eauto. }
  right. repeat split; (done || lia).
Qed.

(** X15. For keys of the same length, two fingerprints coincide only
    when nonce, message digest, key and signature coincide, or when the
    digest collides on the two different messages. *)
Theorem fingerprints_coincide_only_by_collision
    c c' hash hash' vchSig vchSig' pubkey pubkey' :
  is_uint256 (nonce c) → is_uint256 (nonce c') →
  is_uint256 hash → is_uint256 hash' →
  length pubkey = length pubkey' →
  CSignatureCache_ComputeEntry sha256 c hash vchSig pubkey
  = CSignatureCache_ComputeEntry sha256 c' hash' vchSig' pubkey' →
  (nonce c = nonce c' ∧ hash = hash' ∧ pubkey = pubkey' ∧ vchSig = vchSig')
  ∨ ((entry_message c hash vchSig pubkey
        ≠ entry_message c' hash' vchSig' pubkey')
     ∧ CSHA256_Finalize sha256 (entry_message c hash vchSig pubkey)
       = CSHA256_Finalize sha256 (entry_message c' hash' vchSig' pubkey')).
Proof.
  intros Hc Hc' Hh Hh' Hlen Heq. rewrite !ComputeEntry_message in Heq.
  destruct (decide (entry_message c hash vchSig pubkey
                    = entry_message c' hash' vchSig' pubkey')) as [Hm|Hm];
    [left | by right].
  unfold entry_message in Hm.
  apply app_inj_1 in Hm as [Hn Hm];
    [|unfold uint256_bytes; by rewrite !le_bytes_length].
  apply app_inj_1 in Hm as [Hhash Hm];
    [|unfold uint256_bytes; by rewrite !le_bytes_length].
  apply app_inj_1 in Hm as [Hk Hs]; [|done].
  apply uint256_bytes_inj in Hn; [|done..].
  apply uint256_bytes_inj in Hhash; [|done..]. done.
Qed.

(** X16. The key bytes and the signature bytes are fed to the digest one
    after the other with nothing in between: the empty key (a [CPubKey]
    of size 0) with the signature [pubkey ++ vchSig] has the fingerprint
    of [(vchSig, pubkey)], so once that fingerprint is cached the call
    returns [true] for it without a call of the base verifier. *)
Theorem empty_key_shares_fingerprint fuel store vchSig pubkey sighash p :
  fp p vchSig pubkey sighash ∈ members p →
  fingerprint sha256 rand default_buckets p (pubkey ++ vchSig) [] sighash
  = fingerprint sha256 rand default_buckets p vchSig pubkey sighash
  ∧ ∃ p',
      Verify fuel store (pubkey ++ vchSig) [] sighash p = (Returned true, p')
      ∧ base_calls p' = base_calls p.
Proof.
  intros Hin.
  assert (fp p (pubkey ++ vchSig) [] sighash = fp p vchSig pubkey sighash)
    as Hfp.
  { unfold fingerprint. rewrite !ComputeEntry_message. unfold entry_message.
    by rewrite app_nil_l. }
  split; [done|]. rewrite <- Hfp in Hin.
  eexists. by rewrite Verify_hit.
Qed.

(** X17. The first call constructs the cache: it draws the nonce from
    the random source, finds no fingerprint and calls the base verifier;
    from then on the cache object exists. *)
Theorem first_call_constructs_the_cache fuel store vchSig pubkey sighash p :
  VerifySignature_signatureCache p = None →
  ∃ c',
    VerifySignature_signatureCache
      (snd (Verify fuel store vchSig pubkey sighash p)) = Some c'
    ∧ nonce c' = to_uint256 (rand (rand_pos p))
    ∧ base_calls (snd (Verify fuel store vchSig pubkey sighash p))
      = base_calls p ++ [(vchSig, pubkey, sighash)]
    ∧ (rand_pos p < rand_pos (snd (Verify fuel store vchSig pubkey sighash p)))%nat.
Proof.
  intros Hnone.
  assert (members p = ∅) as He by (unfold members; by rewrite Hnone).
  assert (enter p = ({| nonce := to_uint256 (rand (rand_pos p));
                        setValid := mt_new default_buckets |},
                     S (rand_pos p))) as Henter.
  { unfold enter_static. by rewrite Hnone. }
  rewrite Verify_miss by (rewrite He; apply not_elem_of_empty).
  simpl. rewrite Henter. simpl.
  destruct (baseVerify vchSig pubkey sighash); simpl;
    [|eexists; split; [done|]; split; [done|]; split; [done|]; simpl; lia].
  destruct store;
    [|eexists; split; [done|]; split; [done|]; split; [done|]; simpl; lia].
  destruct (CacheSet _ _ _ _) as [[c' pos']|] eqn:E; simpl;
    [|eexists; split; [done|]; split; [done|]; split; [done|]; simpl; lia].
  exists c'. pose proof E as Hpost.
  apply Set_post in Hpost as (Hn & _).
  repeat split; try done.
  destruct (decide (nMax = 0)) as [Hz|Hnz].
  - rewrite Set_disabled in E by done. injection E as _ <-. lia.
  - rewrite Set_enabled in E by done.
    destruct (evict _ _ _) as [[m q]|] eqn:Ev; [|done].
    injection E as _ <-. apply Set_evict_post in Ev as (_ & _ & _ & Hq). lia.
Qed.

(** X18. With a bound of zero the cache stays empty in every state the
    process can reach, and every call returns what the base verifier
    answers, after one call of it. *)
Theorem disabled_cache_is_transparent p :
  nMaxCacheSize maxsigcachesize = 0 →
  Reachable sha256 baseVerify DynamicUsage rand maxsigcachesize
    default_buckets rehash_policy p →
  members p = ∅
  ∧ ∀ fuel store vchSig pubkey sighash, ∃ p',
      Verify fuel store vchSig pubkey sighash p
      = (Returned (baseVerify vchSig pubkey sighash), p')
      ∧ base_calls p' = base_calls p ++ [(vchSig, pubkey, sighash)]
      ∧ members p' = ∅.
Proof.
  intros Hz Hreach. pose proof (Reachable_disabled p Hz Hreach) as He.
  split; [done|]. intros fuel store vchSig pubkey sighash.
  eexists. split; [by apply Verify_disabled|]. split; [done|].
  unfold members. simpl. by rewrite <- members_enter.
Qed.

(** X19. A call adds to the cache at most its own fingerprint, and only
    when the base verifier accepts the triple and [store] is [true]; all
    other fingerprints held afterwards were held before. *)
Theorem Verify_adds_only_its_fingerprint fuel store vchSig pubkey sighash p :
  members (snd (Verify fuel store vchSig pubkey sighash p))
  ⊆ members p
    ∪ (if baseVerify vchSig pubkey sighash && store
       then {[fp p vchSig pubkey sighash]} else ∅).
Proof.
  intros e He.
  destruct (decide (fp p vchSig pubkey sighash ∈ members p)) as [Hin|Hin].
  - apply Verify_members in He as [He|[-> _]]; by apply elem_of_union_l.
  - rewrite Verify_miss in He by done. simpl in He.
    destruct (baseVerify vchSig pubkey sighash); simpl in *;
      [|apply elem_of_union_l; by rewrite (members_enter p)].
    destruct store;
      [|apply elem_of_union_l; by rewrite (members_enter p)].
    destruct (CacheSet _ _ _ _) as [[c' pos']|] eqn:E; simpl in *;
      [|apply elem_of_union_l; by rewrite (members_enter p)].
    apply Set_post in E as (_ & Hsub & _).
    apply Hsub, elem_of_union in He as [He|He].
    + by apply elem_of_union_r.
    + apply elem_of_union_l. by rewrite (members_enter p).
Qed.

Lemma CSignatureCache_new_nonce pos :
  is_uint256 (nonce (fst (CSignatureCache_new rand default_buckets pos))).
Proof. apply to_uint256_range. Qed.

End SigCacheFacts.

(** ** Concrete runs *)

Lemma counting_rand_fair m pos :
  0 < bucket_count m → fair_draws counting_rand m pos.
Proof.
  intros Hbc key _ p _.
  pose proof (Z.mod_pos_bound (CSignatureCacheHasher key) (bucket_count m) Hbc)
    as Hb.
  exists (Z.to_nat (mt_bucket m key + bucket_count m * Z.of_nat p)).
  unfold mt_bucket in *. split; [nia|].
  unfold GetRand, counting_rand.
  destruct (Z.eqb_spec (bucket_count m) 0) as [?|_]; [lia|]. simpl.
  rewrite Z2Nat.id by nia.
  rewrite (Z.mul_comm (bucket_count m)), Z.mod_add by lia.
  apply Z.mod_small. lia.
Qed.

Lemma scenario_cached_reachable :
  Reachable poly_digest mock_verify node_bucket_usage counting_rand 1
    sixteen_buckets doubling_policy scenario_cached.
Proof.
  eapply (reach_call _ _ _ _ _ _ _ scenario_start 0 true sig_123 key_P digest_H true).
  - by apply reach_start.
  - by vm_compute.
Qed.

Lemma scenario_cached_member :
  scenario_fingerprint scenario_cached sig_123 key_P digest_H ∈ members scenario_cached.
Proof. vm_compute. reflexivity. Qed.

(** *** C1 *)

Lemma repeat_call_hits_cache_witness :
  mock_verify sig_123 key_P digest_H = true
  ∧ nMaxCacheSize 1 ≠ 0
  ∧ ∃ fuel p1,
      (∀ fuel', (fuel ≤ fuel')%nat →
         scenario_verify 1 fuel' true sig_123 key_P digest_H scenario_start = (Returned true, p1))
      ∧ base_calls p1 = base_calls scenario_start ++ [(sig_123, key_P, digest_H)]
      ∧ (∀ fuel2, ∃ p2,
           scenario_verify 1 fuel2 true sig_123 key_P digest_H p1 = (Returned true, p2)
           ∧ base_calls p2 = base_calls p1).
Proof.
  split; [reflexivity|]. split; [by vm_compute|].
  apply (repeat_call_hits_cache poly_digest mock_verify node_bucket_usage
           counting_rand 1 sixteen_buckets doubling_policy
           sig_123 key_P digest_H scenario_start).
  - reflexivity.
  - by vm_compute.
  - apply not_elem_of_empty.
  - split; [by apply counting_rand_fair | by vm_compute].
Defined.

(** With [-maxsigcachesize=0] nothing is stored: the second call of the
    scenario returns [true] after a second call of the base verifier. *)
Lemma disabled_cache_reverifies :
  mock_verify sig_123 key_P digest_H = true
  ∧ ∃ p1 p2,
      scenario_verify 0 0 true sig_123 key_P digest_H scenario_start = (Returned true, p1)
      ∧ base_calls p1 = [(sig_123, key_P, digest_H)]
      ∧ scenario_verify 0 0 true sig_123 key_P digest_H p1 = (Returned true, p2)
      ∧ base_calls p2 = [(sig_123, key_P, digest_H); (sig_123, key_P, digest_H)].
Proof.
  split; [reflexivity|].
  eexists _, _. split; [by vm_compute|]. split; [reflexivity|].
  split; [by vm_compute|]. reflexivity.
Qed.

(** *** C2 *)

Lemma mock_verify_true vchSig pubkey sighash :
  mock_verify vchSig pubkey sighash = true →
  vchSig = sig_123 ∧ pubkey = key_P ∧ sighash = digest_H.
Proof.
  unfold mock_verify. intros H.
  apply andb_true_iff in H as [H H3]. apply andb_true_iff in H as [H1 H2].
  apply bool_decide_eq_true in H1, H2, H3. done.
Qed.

Lemma invalid_is_never_cached_witness :
  mock_verify sig_999 key_P digest_H = false
  ∧ ∀ fuel store, ∃ p',
      scenario_verify 1 fuel store sig_999 key_P digest_H scenario_cached = (Returned false, p')
      ∧ base_calls p' = base_calls scenario_cached ++ [(sig_999, key_P, digest_H)]
      ∧ members p' = members scenario_cached
      ∧ enter_static counting_rand sixteen_buckets p'
        = enter_static counting_rand sixteen_buckets scenario_cached
      ∧ Reachable poly_digest mock_verify node_bucket_usage counting_rand 1
          sixteen_buckets doubling_policy p'.
Proof.
  split; [reflexivity|].
  apply (invalid_is_never_cached poly_digest mock_verify node_bucket_usage
           counting_rand 1 sixteen_buckets doubling_policy
           sig_999 key_P digest_H scenario_cached).
  - reflexivity.
  - exact scenario_cached_reachable.
  - intros s k h Hb. apply mock_verify_true in Hb as (-> & -> & ->).
    by vm_compute.
Defined.

(** *** The estimator and the stores of the runs *)

Lemma mt_begin_empty_bucket s m :
  (∀ key, key ∈ elems m → mt_bucket m key ≠ s) → mt_begin s m = None.
Proof.
  intros H. unfold mt_begin.
  destruct (filter _ (elements (elems m))) as [|key l] eqn:E; [done|].
  assert (key ∈ filter (λ k, mt_bucket m k = s) (elements (elems m))) as Hin.
  { rewrite E. apply list_elem_of_here. }
  apply list_elem_of_filter in Hin as [Hb Hin].
  apply elem_of_elements in Hin. by destruct (H key Hin).
Qed.

Lemma node_bucket_usage_eq m :
  node_bucket_usage m = 64 * mt_size m + MallocUsage (8 * bucket_count m).
Proof. reflexivity. Qed.

Lemma node_bucket_usage_clear m :
  node_bucket_usage (mt_clear m) = MallocUsage (8 * bucket_count m).
Proof.
  rewrite node_bucket_usage_eq. unfold mt_size.
  change (elems (mt_clear m)) with (∅ : gset Z).
  change (bucket_count (mt_clear m)) with (bucket_count m).
  rewrite size_empty. lia.
Qed.

Lemma store_of_elem n b k : k ∈ elems (store_of n b) ↔ 1 ≤ k ≤ n.
Proof.
  unfold store_of. simpl. rewrite elem_of_list_to_set, elem_of_seqZ. lia.
Qed.

Lemma store_of_size n b : 0 ≤ n → mt_size (store_of n b) = n.
Proof.
  intros Hn. unfold mt_size, store_of. simpl.
  rewrite size_list_to_set by apply NoDup_seqZ. rewrite length_seqZ. lia.
Qed.

Lemma store_of_buckets n b : bucket_count (store_of n b) = b.
Proof. reflexivity. Qed.

Lemma store_of_usage n b :
  0 ≤ n → node_bucket_usage (store_of n b) = 64 * n + MallocUsage (8 * b).
Proof.
  intros Hn. by rewrite node_bucket_usage_eq, store_of_size, store_of_buckets.
Qed.

(** Bucket 0 of such a store is empty when there are more buckets than keys. *)
Lemma store_of_bucket_0 n b : n < b → b ≤ 2 ^ 64 → mt_begin 0 (store_of n b) = None.
Proof.
  intros Hn Hb. apply mt_begin_empty_bucket. intros key Hkey.
  apply store_of_elem in Hkey.
  unfold mt_bucket, CSignatureCacheHasher, GetCheapHash.
  rewrite store_of_buckets.
  rewrite (Z.mod_small key (2 ^ 64)) by lia. rewrite Z.mod_small by lia. lia.
Qed.

(** [Set] on such a store that is within the bound, for a key it does not
    hold and a table that has room: nothing is evicted, the key is added. *)
Lemma Set_store_of_within rand a fuel n b entry pos :
  0 ≤ n → nMaxCacheSize a ≠ 0 →
  64 * n + MallocUsage (8 * b) ≤ nMaxCacheSize a →
  ¬ (1 ≤ entry ≤ n) → n + 1 ≤ b →
  ∃ c',
    scenario_Set rand a fuel entry (cache_of n b) pos = Some (c', pos)
    ∧ elems (setValid c') = {[entry]} ∪ elems (store_of n b)
    ∧ node_bucket_usage (setValid c') = 64 * (n + 1) + MallocUsage (8 * b).
Proof.
  intros Hn Hnz Hu Hout Hroom.   rewrite Set_enabled by done.
  rewrite Set_evict_under by (unfold cache_of, setValid; by rewrite store_of_usage).
  eexists. split; [done|]. unfold setValid at 1 2. unfold cache_of, setValid.
  unfold mt_insert. rewrite decide_False by (by rewrite store_of_elem).
  split; [done|]. rewrite node_bucket_usage_eq.
  unfold mt_size at 1. unfold elems at 1, bucket_count at 1.
  rewrite size_union by (apply disjoint_singleton_l; by rewrite store_of_elem).
  rewrite size_singleton, store_of_size, store_of_buckets by done.
  pose proof (store_of_size n b Hn) as Hs. unfold mt_size in Hs.
  unfold doubling_policy. destruct (Z.leb_spec (n + 1) b); lia.
Qed.

(** A rejected triple can have the fingerprint of an accepted one with
    no collision of the digest: the key bytes and the signature bytes are
    fed to it back to back, so the empty key with the signature
    [P ++ [1,2,3]] gives the very message of [([1,2,3], P, H)].  Once the
    latter is cached, the call for the former returns [true] without a
    call of the base verifier, and with [store = false] it removes the
    fingerprint from the cache. *)
Lemma aliased_rejected_triple_is_answered_true :
  let p' :=
    snd (scenario_verify 1 0 false (key_P ++ sig_123) [] digest_H
           scenario_cached) in
  mock_verify (key_P ++ sig_123) [] digest_H = false
  ∧ Reachable poly_digest mock_verify node_bucket_usage counting_rand 1
      sixteen_buckets doubling_policy scenario_cached
  ∧ entry_message
      (fst (enter_static counting_rand sixteen_buckets scenario_cached))
      digest_H (key_P ++ sig_123) []
    = entry_message
        (fst (enter_static counting_rand sixteen_buckets scenario_cached))
        digest_H sig_123 key_P
  ∧ scenario_verify 1 0 true (key_P ++ sig_123) [] digest_H scenario_cached
    = (Returned true, scenario_cached)
  ∧ scenario_verify 1 0 false (key_P ++ sig_123) [] digest_H scenario_cached
    = (Returned true, p')
  ∧ base_calls p' = base_calls scenario_cached
  ∧ scenario_fingerprint scenario_cached sig_123 key_P digest_H
    ∈ members scenario_cached
  ∧ members p' = ∅.
Proof.
  intros p'. split; [reflexivity|]. split; [exact scenario_cached_reachable|].
  split; [vm_compute; reflexivity|]. split; [vm_compute; reflexivity|].
  split; [vm_compute; reflexivity|]. split; [vm_compute; reflexivity|].
  split; [exact scenario_cached_member|]. vm_compute. reflexivity.
Qed.

(** *** C3 *)

Lemma Set_bound_before_insertion_witness :
  nMaxCacheSize 1 ≠ 0
  ∧ (∀ fuel c' pos',
       scenario_Set counting_rand 1 fuel 7 (cache_of 3 16) 0 = Some (c', pos') →
       ∃ m,
         node_bucket_usage m ≤ nMaxCacheSize 1
         ∧ setValid c' = mt_insert doubling_policy 7 m
         ∧ elems m ⊆ elems (setValid (cache_of 3 16))
         ∧ bucket_count m = bucket_count (setValid (cache_of 3 16))
         ∧ (7 ∈ elems m → node_bucket_usage (setValid c') ≤ nMaxCacheSize 1))
  ∧ ∃ fuel r, scenario_Set counting_rand 1 fuel 7 (cache_of 3 16) 0 = Some r.
Proof.
  split; [by vm_compute|].
  destruct (Set_bound_before_insertion node_bucket_usage counting_rand 1
              doubling_policy 7 (cache_of 3 16) 0%nat) as [Hpost Hexit];
    [by vm_compute|].
  split; [exact Hpost|]. apply Hexit.
  split; [by apply counting_rand_fair | by vm_compute].
Defined.

(** With a bound of one mebibyte, which admits a store of one key, a
    store of 14335 keys in 16384 buckets is estimated at 1048528 bytes and
    evicts nothing; [Set] returns with 14336 keys, estimated at 1048592
    bytes, above the bound of 1048576. *)
Lemma Set_returns_over_bound :
  nMaxCacheSize 1 = 1048576
  ∧ node_bucket_usage (store_of 1 16) ≤ nMaxCacheSize 1
  ∧ node_bucket_usage (store_of 14335 16384) = 1048528
  ∧ ∃ c',
      scenario_Set counting_rand 1 0 14336 (cache_of 14335 16384) 0 = Some (c', 0%nat)
      ∧ node_bucket_usage (setValid c') = 1048592
      ∧ ¬ node_bucket_usage (setValid c') ≤ nMaxCacheSize 1.
Proof.
  split; [reflexivity|]. split; [by vm_compute|].
  split; [by rewrite store_of_usage|].
  destruct (Set_store_of_within counting_rand 1 0 14335 16384 14336 0)
    as (c' & Hset & _ & Hu); [lia | by vm_compute | by vm_compute | lia | lia |].
  exists c'. split; [exact Hset|]. rewrite Hu. clear Hset Hu.
  split; [reflexivity | by vm_compute].
Qed.

(** *** C4 *)

Lemma non_storing_hit_purges_witness :
  scenario_fingerprint scenario_cached sig_123 key_P digest_H ∈ members scenario_cached
  ∧ ∃ p1,
    scenario_verify 1 0 false sig_123 key_P digest_H scenario_cached = (Returned true, p1)
    ∧ base_calls p1 = base_calls scenario_cached
    ∧ members p1
      = members scenario_cached ∖ {[scenario_fingerprint scenario_cached sig_123 key_P digest_H]}
    ∧ scenario_fingerprint p1 sig_123 key_P digest_H = scenario_fingerprint scenario_cached sig_123 key_P digest_H
    ∧ (scenario_fingerprint p1 sig_123 key_P digest_H ∉ members p1)
    ∧ (∀ fuel2,
         base_calls (snd (scenario_verify 1 fuel2 true sig_123 key_P digest_H p1))
         = base_calls p1 ++ [(sig_123, key_P, digest_H)]).
Proof.
  split; [exact scenario_cached_member|].
  apply (non_storing_hit_purges poly_digest mock_verify node_bucket_usage
           counting_rand 1 sixteen_buckets doubling_policy
           sig_123 key_P digest_H scenario_cached scenario_cached_member 0%nat).
Defined.

(** *** C5 *)

(** C5 (defect). With [-maxsigcachesize=-1] the product taken as a
    [size_t] is [2^64 - 2^20], not a value [<= 0]: [Set] goes on and the
    fingerprint is retained, where the store should have stayed as it
    was; with [-maxsigcachesize=0] it does stay as it was. *)
Theorem negative_bound_populates :
  nMaxCacheSize (-1) = 2 ^ 64 - 2 ^ 20
  ∧ (∃ c',
       scenario_Set counting_rand (-1) 0 7 (cache_of 0 16) 0 = Some (c', 0%nat)
       ∧ elems (setValid c') = {[7]}
       ∧ setValid c' ≠ setValid (cache_of 0 16))
  ∧ scenario_Set counting_rand 0 0 7 (cache_of 0 16) 0
    = Some (cache_of 0 16, 0%nat).
Proof.
  split; [reflexivity|]. split; [|by vm_compute].
  eexists. split; [by vm_compute|]. split; by vm_compute.
Qed.

(** *** C6 *)

(** A store of 14336 keys in 16384 buckets is above a bound of one
    mebibyte; with the counting source, [Set] evicts and returns. *)
Lemma Set_terminates_witness :
  nMaxCacheSize 1 < node_bucket_usage (store_of 14336 16384)
  ∧ ∃ fuel r, ∀ fuel', (fuel ≤ fuel')%nat →
      scenario_Set counting_rand 1 fuel' 0 (cache_of 14336 16384) 0 = Some r.
Proof.
  split; [rewrite store_of_usage by lia; reflexivity|].
  apply (Set_terminates node_bucket_usage counting_rand 1 doubling_policy
           0 (cache_of 14336 16384) 0%nat).
  split.
  - apply counting_rand_fair. reflexivity.
  - rewrite node_bucket_usage_clear. unfold cache_of, setValid.
    rewrite store_of_buckets. vm_compute. discriminate.
Defined.

(** The loop does not exit (1) when the bucket array alone is estimated
    above the bound, 262144 empty buckets against one mebibyte, whatever
    the random source delivers, and (2) when the draws never reach an
    occupied bucket, here 14336 keys, none of them in bucket 0, and a
    source that always draws bucket 0, although the bucket array is
    within the bound. *)
Lemma Set_eviction_can_spin :
  0 < nMaxCacheSize 1
  ∧ (∀ rand fuel entry pos,
       scenario_Set rand 1 fuel entry
         {| nonce := 42; setValid := {| elems := ∅; bucket_count := 262144 |} |}
         pos = None)
  ∧ node_bucket_usage (mt_clear (store_of 14336 16384)) ≤ nMaxCacheSize 1
  ∧ (∀ fuel entry pos,
       scenario_Set zero_rand 1 fuel entry (cache_of 14336 16384) pos = None).
Proof.
  split; [reflexivity|]. split; [|split].
  - intros rand fuel entry pos.     rewrite Set_enabled by (by vm_compute).
    rewrite Set_evict_spins; [reflexivity | reflexivity |].
    intros p. apply mt_begin_empty_bucket. intros key Hkey.
    by apply not_elem_of_empty in Hkey.
  - rewrite node_bucket_usage_clear, store_of_buckets. vm_compute. discriminate.
  - intros fuel entry pos.     rewrite Set_enabled by (by vm_compute).
    rewrite Set_evict_spins; [reflexivity | |].
    + unfold cache_of, setValid. rewrite store_of_usage by lia. reflexivity.
    + intros p. unfold cache_of, setValid. rewrite store_of_buckets.
      change (fst (GetRand zero_rand 16384 p)) with 0.
      apply store_of_bucket_0; lia.
Qed.

(** *** C8 *)

Lemma distinct_nonces_separate_witness :
  let c1 := fst (CSignatureCache_new counting_rand sixteen_buckets 1) in
  let c2 := fst (CSignatureCache_new counting_rand sixteen_buckets 2) in
  nonce c1 ≠ nonce c2
  ∧ CSignatureCache_ComputeEntry poly_digest c1 digest_H sig_123 key_P
    ≠ CSignatureCache_ComputeEntry poly_digest c2 digest_H sig_123 key_P.
Proof.
  intros c1 c2. split; [by vm_compute|].
  apply (distinct_nonces_separate poly_digest c1 c2 digest_H sig_123 key_P).
  - apply CSignatureCache_new_nonce.
  - apply CSignatureCache_new_nonce.
  - by vm_compute.
  - intros H. by vm_compute in H.
Defined.

(** *** The scenario of the design document *)

(** The valid triple is verified once and then answered from the cache;
    the invalid triple is verified at every call. *)
Example design_document_scenario :
  let '(r1, p1) := scenario_verify 1 0 true sig_123 key_P digest_H scenario_start in
  let '(r2, p2) := scenario_verify 1 0 true sig_123 key_P digest_H p1 in
  let '(r3, p3) := scenario_verify 1 0 true sig_999 key_P digest_H p2 in
  let '(r4, p4) := scenario_verify 1 0 true sig_999 key_P digest_H p3 in
  [r1; r2; r3; r4]
  = [Returned true; Returned true; Returned false; Returned false]
  ∧ length <$> [base_calls p1; base_calls p2; base_calls p3; base_calls p4]
    = [1; 1; 2; 3]%nat.
Proof. by vm_compute. Qed.

(** *** Runs for the further properties *)

(** Two keys in 131062 buckets are estimated 64 bytes above one mebibyte:
    [Set] draws bucket 0, which is empty, then bucket 1, erases key 1 and
    inserts. *)
Lemma Set_run_with_one_eviction :
  scenario_Set counting_rand 1 2 7 (cache_of 2 131062) 0
  = Some ({| nonce := 42;
             setValid :=
               mt_insert doubling_policy 7 (mt_erase 1 (store_of 2 131062)) |},
          2%nat).
Proof. by vm_compute. Qed.

Lemma Get_after_Set_witness :
  let c' :=
    {| nonce := 42;
       setValid :=
         mt_insert doubling_policy 7 (mt_erase 1 (store_of 2 131062)) |} in
  nMaxCacheSize 1 ≠ 0
  ∧ scenario_Set counting_rand 1 2 7 (cache_of 2 131062) 0 = Some (c', 2%nat)
  ∧ fst (CSignatureCache_Get 7 c') = true
  ∧ (∀ entry', fst (CSignatureCache_Get entry' c') = true →
       entry' = 7 ∨ fst (CSignatureCache_Get entry' (cache_of 2 131062)) = true)
  ∧ nonce c' = nonce (cache_of 2 131062).
Proof.
  intros c'. split; [by vm_compute|]. split; [exact Set_run_with_one_eviction|].
  apply (Get_after_Set node_bucket_usage counting_rand 1 doubling_policy
           2 7 (cache_of 2 131062) 0 c' 2).
  - by vm_compute.
  - exact Set_run_with_one_eviction.
Defined.

Lemma Set_within_bound_evicts_nothing_witness :
  nMaxCacheSize 1 ≠ 0
  ∧ node_bucket_usage (setValid (cache_of 3 16)) ≤ nMaxCacheSize 1
  ∧ ∃ c',
      scenario_Set counting_rand 1 0 7 (cache_of 3 16) 5 = Some (c', 5%nat)
      ∧ elems (setValid c') = {[7]} ∪ elems (setValid (cache_of 3 16))
      ∧ nonce c' = nonce (cache_of 3 16).
Proof.
  split; [by vm_compute|]. split; [by vm_compute|].
  apply (Set_within_bound_evicts_nothing node_bucket_usage counting_rand 1
           doubling_policy 0 7 (cache_of 3 16) 5); by vm_compute.
Defined.

Lemma Set_of_present_entry_is_noop_witness :
  2 ∈ elems (setValid (cache_of 3 16))
  ∧ scenario_Set counting_rand 1 0 2 (cache_of 3 16) 5
    = Some (cache_of 3 16, 5%nat).
Proof.
  split; [by vm_compute|].
  apply (Set_of_present_entry_is_noop node_bucket_usage counting_rand 1
           doubling_policy 0 2 (cache_of 3 16) 5); by vm_compute.
Defined.

Lemma Set_evicts_no_more_than_needed_witness :
  nMaxCacheSize 1 < node_bucket_usage (store_of 2 131062)
  ∧ ∃ m,
      mt_insert doubling_policy 7 (mt_erase 1 (store_of 2 131062))
      = mt_insert doubling_policy 7 m
      ∧ (m = store_of 2 131062
         ∨ ∃ m0 key,
             key ∈ elems m0 ∧ elems m0 ⊆ elems (store_of 2 131062)
             ∧ bucket_count m0 = 131062
             ∧ nMaxCacheSize 1 < node_bucket_usage m0
             ∧ m = mt_erase key m0).
Proof.
  split; [by vm_compute|].
  apply (Set_evicts_no_more_than_needed node_bucket_usage counting_rand 1
           doubling_policy 2 7 (cache_of 2 131062) 0
           {| nonce := 42;
              setValid :=
                mt_insert doubling_policy 7 (mt_erase 1 (store_of 2 131062)) |}
           2).
  - by vm_compute.
  - exact Set_run_with_one_eviction.
Defined.

(** From position 1 the first draw is bucket 1: one round, one key. *)
Lemma Set_run_with_one_round :
  scenario_Set counting_rand 1 1 7 (cache_of 2 131062) 1
  = Some ({| nonce := 42;
             setValid :=
               mt_insert doubling_policy 7 (mt_erase 1 (store_of 2 131062)) |},
          2%nat).
Proof. by vm_compute. Qed.

Lemma Set_evicts_at_most_one_key_per_round_witness :
  nMaxCacheSize 1 ≠ 0
  ∧ ∃ m,
      mt_insert doubling_policy 7 (mt_erase 1 (store_of 2 131062))
      = mt_insert doubling_policy 7 m
      ∧ elems m ⊆ elems (store_of 2 131062)
      ∧ (size (elems (store_of 2 131062)) ≤ size (elems m) + 1)%nat.
Proof.
  split; [by vm_compute|].
  apply (Set_evicts_at_most_one_key_per_round node_bucket_usage counting_rand 1
           doubling_policy 1 7 (cache_of 2 131062) 1
           {| nonce := 42;
              setValid :=
                mt_insert doubling_policy 7 (mt_erase 1 (store_of 2 131062)) |}
           2).
  - by vm_compute.
  - exact Set_run_with_one_round.
Defined.

Lemma Verify_answers_from_the_base_verifier_witness :
  let p' := snd (scenario_verify 1 0 true sig_999 key_P digest_H scenario_cached) in
  scenario_verify 1 0 true sig_999 key_P digest_H scenario_cached
  = (Returned false, p')
  ∧ (false = false →
     mock_verify sig_999 key_P digest_H = false
     ∧ scenario_fingerprint scenario_cached sig_999 key_P digest_H
       ∉ members scenario_cached)
  ∧ (false = true →
     ∃ vchSig' pubkey' sighash',
       mock_verify vchSig' pubkey' sighash' = true
       ∧ scenario_fingerprint scenario_cached vchSig' pubkey' sighash'
         = scenario_fingerprint scenario_cached sig_999 key_P digest_H).
Proof.
  intros p'. split; [by vm_compute|].
  apply (Verify_answers_from_the_base_verifier poly_digest mock_verify
           node_bucket_usage counting_rand 1 sixteen_buckets doubling_policy
           0 true sig_999 key_P digest_H scenario_cached false p').
  - exact scenario_cached_reachable.
  - by vm_compute.
Defined.

Lemma cache_holds_verified_fingerprints_witness :
  all_verified poly_digest mock_verify counting_rand sixteen_buckets
    scenario_cached
  ∧ is_uint256
      (nonce (fst (enter_static counting_rand sixteen_buckets scenario_cached))).
Proof.
  apply (cache_holds_verified_fingerprints poly_digest mock_verify
           node_bucket_usage counting_rand 1 sixteen_buckets doubling_policy
           scenario_cached).
  exact scenario_cached_reachable.
Defined.

Lemma scenario_cached_miss_999 :
  scenario_fingerprint scenario_cached sig_999 key_P digest_H
  ∉ members scenario_cached.
Proof. by vm_compute. Qed.

Lemma non_storing_miss_leaves_cache_witness :
  (scenario_fingerprint scenario_cached sig_999 key_P digest_H
   ∉ members scenario_cached)
  ∧ ∃ p',
      scenario_verify 1 0 false sig_999 key_P digest_H scenario_cached
      = (Returned (mock_verify sig_999 key_P digest_H), p')
      ∧ base_calls p'
        = base_calls scenario_cached ++ [(sig_999, key_P, digest_H)]
      ∧ enter_static counting_rand sixteen_buckets p'
        = enter_static counting_rand sixteen_buckets scenario_cached
      ∧ members p' = members scenario_cached.
Proof.
  split; [exact scenario_cached_miss_999|].
  apply (non_storing_miss_leaves_cache poly_digest mock_verify
           node_bucket_usage counting_rand 1 sixteen_buckets doubling_policy
           0 sig_999 key_P digest_H scenario_cached).
  exact scenario_cached_miss_999.
Defined.

Lemma storing_hit_changes_nothing_witness :
  scenario_fingerprint scenario_cached sig_123 key_P digest_H
  ∈ members scenario_cached
  ∧ scenario_verify 1 0 true sig_123 key_P digest_H scenario_cached
    = (Returned true, scenario_cached).
Proof.
  split; [exact scenario_cached_member|].
  apply (storing_hit_changes_nothing poly_digest mock_verify
           node_bucket_usage counting_rand 1 sixteen_buckets doubling_policy
           0 sig_123 key_P digest_H scenario_cached).
  exact scenario_cached_member.
Defined.

Lemma fingerprints_coincide_only_by_collision_witness :
  (nonce (cache_of 0 16) = nonce (cache_of 3 16)
   ∧ digest_H = digest_H ∧ key_P = key_P ∧ sig_123 = sig_123)
  ∨ ((entry_message (cache_of 0 16) digest_H sig_123 key_P
      ≠ entry_message (cache_of 3 16) digest_H sig_123 key_P)
     ∧ CSHA256_Finalize poly_digest
         (entry_message (cache_of 0 16) digest_H sig_123 key_P)
       = CSHA256_Finalize poly_digest
           (entry_message (cache_of 3 16) digest_H sig_123 key_P)).
Proof.
  apply (fingerprints_coincide_only_by_collision poly_digest
           (cache_of 0 16) (cache_of 3 16) digest_H digest_H
           sig_123 sig_123 key_P key_P);
    try (by vm_compute); reflexivity.
Defined.

(** The base verifier rejects the empty key with the signature
    [P ++ [1,2,3]]; the call returns [true] for it all the same once
    [([1,2,3], P, H)] is cached. *)
Lemma empty_key_shares_fingerprint_witness :
  mock_verify (key_P ++ sig_123) [] digest_H = false
  ∧ scenario_fingerprint scenario_cached (key_P ++ sig_123) [] digest_H
    = scenario_fingerprint scenario_cached sig_123 key_P digest_H
  ∧ ∃ p',
      scenario_verify 1 0 true (key_P ++ sig_123) [] digest_H scenario_cached
      = (Returned true, p')
      ∧ base_calls p' = base_calls scenario_cached.
Proof.
  split; [reflexivity|].
  apply (empty_key_shares_fingerprint poly_digest mock_verify
           node_bucket_usage counting_rand 1 sixteen_buckets doubling_policy
           0 true sig_123 key_P digest_H scenario_cached).
  exact scenario_cached_member.
Defined.

Lemma first_call_constructs_the_cache_witness :
  VerifySignature_signatureCache scenario_start = None
  ∧ ∃ c',
      VerifySignature_signatureCache
        (snd (scenario_verify 1 0 true sig_123 key_P digest_H scenario_start))
      = Some c'
      ∧ nonce c' = to_uint256 (counting_rand (rand_pos scenario_start))
      ∧ base_calls
          (snd (scenario_verify 1 0 true sig_123 key_P digest_H scenario_start))
        = base_calls scenario_start ++ [(sig_123, key_P, digest_H)]
      ∧ (rand_pos scenario_start
         < rand_pos
             (snd (scenario_verify 1 0 true sig_123 key_P digest_H
                     scenario_start)))%nat.
Proof.
  split; [reflexivity|].
  apply (first_call_constructs_the_cache poly_digest mock_verify
           node_bucket_usage counting_rand 1 sixteen_buckets doubling_policy
           0 true sig_123 key_P digest_H scenario_start).
  reflexivity.
Defined.

Lemma disabled_cache_is_transparent_witness :
  nMaxCacheSize 0 = 0
  ∧ members scenario_start = ∅
  ∧ ∀ fuel store vchSig pubkey sighash, ∃ p',
      scenario_verify 0 fuel store vchSig pubkey sighash scenario_start
      = (Returned (mock_verify vchSig pubkey sighash), p')
      ∧ base_calls p'
        = base_calls scenario_start ++ [(vchSig, pubkey, sighash)]
      ∧ members p' = ∅.
Proof.
  split; [reflexivity|].
  apply (disabled_cache_is_transparent poly_digest mock_verify
           node_bucket_usage counting_rand 0 sixteen_buckets doubling_policy
           scenario_start).
  - reflexivity.
  - by apply reach_start.
Defined.
